(** * The python-processing example activity (process_activity.py)

    A shallow embedding of [PythonProcess] and of the parts of the Python
    runtime it leans on: the object store with [copy.deepcopy], the local
    file system with scoped [open], [os.path.split], [hashlib.md5], and the
    [cumulus_process] library taken as an interface. *)

From Stdlib Require Import ZArith Ascii String List Lia.
From Stdlib.Strings Require Import Byte.
From stdpp Require Import base option list gmap strings.

Local Open Scope Z_scope.

(** ** hashlib.md5

    The digest of RFC 1321 on 32-bit words, each word a [Z] kept below
    [2^32] by an explicit reduction. *)
Module MD5.

Definition mask32 : Z := 0xffffffff.

Definition add32 (a b : Z) : Z := Z.land (a + b) mask32.

Definition not32 (a : Z) : Z := Z.lxor a mask32.

Definition rotl32 (x c : Z) : Z :=
  Z.lor (Z.land (Z.shiftl x c) mask32) (Z.shiftr x (32 - c)).

(** The per-round shift amounts. *)
Definition S : list Z :=
  [7; 12; 17; 22; 7; 12; 17; 22; 7; 12; 17; 22; 7; 12; 17; 22;
   5;  9; 14; 20; 5;  9; 14; 20; 5;  9; 14; 20; 5;  9; 14; 20;
   4; 11; 16; 23; 4; 11; 16; 23; 4; 11; 16; 23; 4; 11; 16; 23;
   6; 10; 15; 21; 6; 10; 15; 21; 6; 10; 15; 21; 6; 10; 15; 21].

(** The sine table: [K !! i] is the integer part of [2^32 * |sin (i + 1)|]. *)
Definition K : list Z :=
  [0xd76aa478; 0xe8c7b756; 0x242070db; 0xc1bdceee;
   0xf57c0faf; 0x4787c62a; 0xa8304613; 0xfd469501;
   0x698098d8; 0x8b44f7af; 0xffff5bb1; 0x895cd7be;
   0x6b901122; 0xfd987193; 0xa679438e; 0x49b40821;
   0xf61e2562; 0xc040b340; 0x265e5a51; 0xe9b6c7aa;
   0xd62f105d; 0x02441453; 0xd8a1e681; 0xe7d3fbc8;
   0x21e1cde6; 0xc33707d6; 0xf4d50d87; 0x455a14ed;
   0xa9e3e905; 0xfcefa3f8; 0x676f02d9; 0x8d2a4c8a;
   0xfffa3942; 0x8771f681; 0x6d9d6122; 0xfde5380c;
   0xa4beea44; 0x4bdecfa9; 0xf6bb4b60; 0xbebfbc70;
   0x289b7ec6; 0xeaa127fa; 0xd4ef3085; 0x04881d05;
   0xd9d4d039; 0xe6db99e5; 0x1fa27cf8; 0xc4ac5665;
   0xf4292244; 0x432aff97; 0xab9423a7; 0xfc93a039;
   0x655b59c3; 0x8f0ccc92; 0xffeff47d; 0x85845dd1;
   0x6fa87e4f; 0xfe2ce6e0; 0xa3014314; 0x4e0811a1;
   0xf7537e82; 0xbd3af235; 0x2ad7d2bb; 0xeb86d391].

Definition zbyte (b : byte) : Z := Z.of_N (Byte.to_N b).

Definition byte_of_Z (z : Z) : byte :=
  default x00 (Byte.of_N (Z.to_N (Z.land z 255))).

(** Append the bit 1, zero bytes up to 56 modulo 64, and the bit length as
    a 64-bit little-endian integer. *)
Definition le_bytes (n : nat) (w : Z) : list Z :=
  map (fun k => Z.land (Z.shiftr w (8 * Z.of_nat k)) 255) (seq 0 n).

Definition pad (msg : list Z) : list Z :=
  let len := Z.of_nat (length msg) in
  let zeros := Z.to_nat ((55 - len) mod 64) in
  msg ++ [128] ++ repeat 0 zeros ++ le_bytes 8 (Z.land (8 * len) (2 ^ 64 - 1)).

Definition word_of (bs : list Z) : Z :=
  fold_right (fun b acc => b + 256 * acc) 0 bs.

Fixpoint words (n : nat) (block : list Z) : list Z :=
  match n with
  | O => []
  | Datatypes.S n' => word_of (take 4 block) :: words n' (drop 4 block)
  end.

Fixpoint blocks (fuel : nat) (l : list Z) : list (list Z) :=
  match fuel, l with
  | O, _ | _, [] => []
  | Datatypes.S f, _ => take 64 l :: blocks f (drop 64 l)
  end.

Record state := State { sa : Z; sb : Z; sc : Z; sd : Z }.

Definition init : state :=
  State 0x67452301 0xefcdab89 0x98badcfe 0x10325476.

Definition step (M : list Z) (st : state) (i : nat) : state :=
  let '(State A B C D) := st in
  let zi := Z.of_nat i in
  let '(F, g) :=
    if zi <? 16 then (Z.lor (Z.land B C) (Z.land (not32 B) D), zi)
    else if zi <? 32 then
      (Z.lor (Z.land D B) (Z.land (not32 D) C), (5 * zi + 1) mod 16)
    else if zi <? 48 then (Z.lxor B (Z.lxor C D), (3 * zi + 5) mod 16)
    else (Z.lxor C (Z.lor B (not32 D)), (7 * zi) mod 16) in
  let F' := add32 (add32 (add32 F A) (K !!! i)) (M !!! Z.to_nat g) in
  State D (add32 B (rotl32 F' (S !!! i))) B C.

Definition compress (st : state) (block : list Z) : state :=
  let M := words 16 block in
  let '(State A B C D) := fold_left (step M) (seq 0 64) st in
  State (add32 (sa st) A) (add32 (sb st) B)
        (add32 (sc st) C) (add32 (sd st) D).

(** [md5(data).digest()]: the sixteen bytes of the final state. *)
Definition digest (data : list byte) : list byte :=
  let p := pad (map zbyte data) in
  let '(State A B C D) := fold_left compress (blocks (length p) p) init in
  map byte_of_Z (le_bytes 4 A ++ le_bytes 4 B ++ le_bytes 4 C ++ le_bytes 4 D).

Definition hex_digits : list ascii := list_ascii_of_string "0123456789abcdef".

Definition hex_digit (n : N) : ascii := nth (N.to_nat n) hex_digits "0"%char.

Definition hex_of_byte (b : byte) : list ascii :=
  let n := Byte.to_N b in
  [hex_digit (N.shiftr n 4); hex_digit (N.land n 15)].

(** [md5(data).hexdigest()]: two lowercase hexadecimal digits per byte. *)
Definition hexdigest (data : list byte) : string :=
  string_of_list_ascii (flat_map hex_of_byte (digest data)).

End MD5.

Definition bytes_of_string (s : string) : list byte := list_byte_of_string s.

Local Open Scope nat_scope.

(** ** Exceptions, and computations that carry a state through them

    A Python call either returns a value or raises; in both cases the
    effects it had on the state so far remain. *)
Inductive exn : Type :=
| KeyError (key : string)
| TypeError
| RecursionError
| SystemError
| FileNotFoundError (path : string)
| PermissionError (path : string)
| OSError (path : string)
| LibraryError (msg : string).

Inductive outcome (A : Type) : Type :=
| Val (a : A)
| Exc (e : exn).
Arguments Val {A} a.
Arguments Exc {A} e.

Definition M (St A : Type) : Type := St → outcome A * St.

#[export] Instance M_ret {St} : MRet (M St) := λ A a s, (Val a, s).

#[export] Instance M_bind {St} : MBind (M St) := λ A B k m s,
  match m s with
  | (Val a, s') => k a s'
  | (Exc e, s') => (Exc e, s')
  end.

Definition raise {St A} (e : exn) : M St A := λ s, (Exc e, s).

Definition gets {St A} (f : St → A) : M St A := λ s, (Val (f s), s).

Definition modify {St} (f : St → St) : M St unit := λ s, (Val tt, f s).

(** Run a computation on a component of the state. *)
Definition zoom {St T A} (proj : St → T) (upd : T → St → St)
    (m : M T A) : M St A := λ s,
  let '(r, t) := m (proj s) in (r, upd t s).

(** [x[key]] on a mapping whose entry may be absent. *)
Definition key {St A} (k : string) (o : option A) : M St A :=
  match o with
  | Some a => mret a
  | None => raise (KeyError k)
  end.

(** ** The object store

    Lists and dicts are mutable objects with an identity; strings, numbers
    and [None] are immutable values. A dict keeps its items in insertion
    order, with string keys as JSON has them. *)
Definition loc : Type := nat.

Inductive val : Type :=
| VStr (s : string)
| VInt (n : Z)
| VNone
| VRef (l : loc).

Inductive obj : Type :=
| OList (items : list val)
| ODict (items : list (string * val)).

Record Heap : Type := mkHeap {
  objs : gmap nat obj;
  next_loc : loc
}.

(** Every object lives below the allocation pointer. *)
Definition heap_wf (h : Heap) : Prop :=
  map_Forall (λ l _, l < next_loc h) (objs h).

Definition reserve : M Heap loc := λ h,
  (Val (next_loc h), mkHeap (objs h) (S (next_loc h))).

Definition fill (l : loc) (o : obj) : M Heap unit := λ h,
  (Val tt, mkHeap (<[l := o]> (objs h)) (next_loc h)).

Definition alloc (o : obj) : M Heap loc :=
  l ← reserve; fill l o;; mret l.

Definition deref (l : loc) : M Heap obj := λ h,
  match objs h !! l with
  | Some o => (Val o, h)
  | None => (Exc SystemError, h)
  end.

Fixpoint assoc {A} (k : string) (items : list (string * A)) : option A :=
  match items with
  | [] => None
  | (k', v) :: rest => if bool_decide (k' = k) then Some v else assoc k rest
  end.

(** [x[k]] for a string [k]: only a dict accepts it. *)
Definition subscript (x : val) (k : string) : M Heap val :=
  match x with
  | VRef l =>
      o ← deref l;
      match o with
      | ODict items => key k (assoc k items)
      | OList _ => raise TypeError
      end
  | _ => raise TypeError
  end.

(** [for a in x]: the items of a list, the keys of a dict, the characters
    of a string. Nothing below mutates [x] while it is iterated. *)
Definition iterate (x : val) : M Heap (list val) :=
  match x with
  | VRef l =>
      o ← deref l;
      match o with
      | OList items => mret items
      | ODict items => mret (map (λ kv, VStr kv.1) items)
      end
  | VStr s => mret (map (λ c, VStr (String c EmptyString)) (list_ascii_of_string s))
  | _ => raise TypeError
  end.

(** [x == s] for a string literal [s]. *)
Definition eq_str (x : val) (s : string) : bool :=
  match x with
  | VStr s' => bool_decide (s' = s)
  | _ => false
  end.

(** A comprehension [[... for x in xs ...]]: the bodies run in order and
    their results are chained. *)
Fixpoint for_each {St A B} (xs : list A) (body : A → M St (list B))
    : M St (list B) :=
  match xs with
  | [] => mret []
  | x :: xs' => ys ← body x; zs ← for_each xs' body; mret (ys ++ zs)
  end.

(** *** copy.deepcopy

    [memo] maps the identity of each object met so far to its copy. The
    copy of a list or dict gets its identity (and its memo entry) before
    its items are copied, and its contents once they are: nothing reads
    the copy in between. [fuel] is the nesting depth the interpreter allows
    before it raises [RecursionError]. *)
Fixpoint copy_items (cp : val → gmap nat loc → M Heap (val * gmap nat loc))
    (items : list val) (memo : gmap nat loc)
    : M Heap (list val * gmap nat loc) :=
  match items with
  | [] => mret ([], memo)
  | a :: rest =>
      '(a', memo) ← cp a memo;
      '(rest', memo) ← copy_items cp rest memo;
      mret (a' :: rest', memo)
  end.

Fixpoint copy_entries (cp : val → gmap nat loc → M Heap (val * gmap nat loc))
    (items : list (string * val)) (memo : gmap nat loc)
    : M Heap (list (string * val) * gmap nat loc) :=
  match items with
  | [] => mret ([], memo)
  | (k, v) :: rest =>
      '(v', memo) ← cp v memo;
      '(rest', memo) ← copy_entries cp rest memo;
      mret ((k, v') :: rest', memo)
  end.

Fixpoint deepcopy (fuel : nat) (x : val) (memo : gmap nat loc)
    : M Heap (val * gmap nat loc) :=
  match x with
  | VRef l =>
      match memo !! l with
      | Some y => mret (VRef y, memo)
      | None =>
          match fuel with
          | O => raise RecursionError
          | S fuel' =>
              o ← deref l;
              y ← reserve;
              let memo := <[l := y]> memo in
              match o with
              | OList items =>
                  '(items', memo) ← copy_items (deepcopy fuel') items memo;
                  fill y (OList items');;
                  mret (VRef y, memo)
              | ODict items =>
                  '(items', memo) ← copy_entries (deepcopy fuel') items memo;
                  fill y (ODict items');;
                  mret (VRef y, memo)
              end
          end
      end
  | _ => mret (x, memo)
  end.

(** ** The local file system

    [fs_files] holds the regular files by path. Opening a path of [unwritable]
    for writing is refused (a missing directory, a permission); reading or
    writing a path of [faulty] raises once the file is open. [open_files]
    are the handles currently held. *)
Record FS : Type := mkFS {
  fs_files : gmap string (list byte);
  unwritable : gset string;
  faulty : gset string;
  open_files : list string
}.

Inductive mode : Type := RB | W.

Definition set_files (f : gmap string (list byte) → gmap string (list byte))
    (s : FS) : FS :=
  mkFS (f (fs_files s)) (unwritable s) (faulty s) (open_files s).

Definition set_open_files (f : list string → list string) (s : FS) : FS :=
  mkFS (fs_files s) (unwritable s) (faulty s) (f (open_files s)).

Fixpoint remove_first (p : string) (l : list string) : list string :=
  match l with
  | [] => []
  | q :: l' => if bool_decide (q = p) then l' else q :: remove_first p l'
  end.

(** [open(path, mode)]: mode ['w'] creates or truncates the file. *)
Definition open (path : string) (m : mode) : M FS string := λ s,
  match m with
  | RB =>
      match fs_files s !! path with
      | Some _ => (Val path, set_open_files (cons path) s)
      | None => (Exc (FileNotFoundError path), s)
      end
  | W =>
      if bool_decide (path ∈ unwritable s) then (Exc (PermissionError path), s)
      else (Val path, set_open_files (cons path) (set_files <[path := []]> s))
  end.

Definition close (f : string) : M FS unit :=
  modify (set_open_files (remove_first f)).

(** [file.read()] *)
Definition read (f : string) : M FS (list byte) := λ s,
  if bool_decide (f ∈ faulty s) then (Exc (OSError f), s)
  else match fs_files s !! f with
       | Some data => (Val data, s)
       | None => (Exc (OSError f), s)
       end.

(** [file.write(text)]: the characters of [text] become the file's bytes. *)
Definition write (f : string) (text : string) : M FS unit := λ s,
  if bool_decide (f ∈ faulty s) then (Exc (OSError f), s)
  else (Val tt, set_files <[f := bytes_of_string text]> s).

(** [with open(path, mode) as f: body]: the handle is released when the
    body returns and when it raises; the exception then goes on. *)
Definition with_open {A} (path : string) (m : mode) (body : string → M FS A)
    : M FS A := λ s,
  match open path m s with
  | (Val f, s1) => let '(r, s2) := body f s1 in (r, (close f s2).2)
  | (Exc e, s1) => (Exc e, s1)
  end.

(** ** os.path.split (posixpath) *)
Definition sep : ascii := "/"%char.

(** [p.rfind('/') + 1] *)
Fixpoint rfind1 (p : string) : nat :=
  match p with
  | EmptyString => 0
  | String c rest =>
      match rfind1 rest with
      | O => if bool_decide (c = sep) then 1 else 0
      | S i => S (S i)
      end
  end.

Fixpoint str_take (n : nat) (s : string) : string :=
  match n, s with
  | S n', String c rest => String c (str_take n' rest)
  | _, _ => EmptyString
  end.

Fixpoint str_drop (n : nat) (s : string) : string :=
  match n, s with
  | S n', String _ rest => str_drop n' rest
  | _, _ => s
  end.

Fixpoint all_sep (s : string) : bool :=
  match s with
  | EmptyString => true
  | String c rest => bool_decide (c = sep) && all_sep rest
  end.

(** [s.rstrip('/')] *)
Fixpoint rstrip_sep (s : string) : string :=
  match s with
  | EmptyString => EmptyString
  | String c rest => if all_sep s then EmptyString else String c (rstrip_sep rest)
  end.

Definition os_path_split (p : string) : string * string :=
  let i := rfind1 p in
  let head := str_take i p in
  let tail := str_drop i p in
  let head := if all_sep head then head else rstrip_sep head in
  (head, tail).

(** ** The handler's configuration

    [config] is a nested mapping of strings; a key may be absent. *)
Record collection_config : Type := mkCollection {
  collection_name : option string;
  collection_version : option string
}.

Record bucket_config : Type := mkBucket { bucket_name : option string }.

Record buckets_config : Type := mkBuckets { internal : option bucket_config }.

Record Config : Type := mkConfig {
  collection : option collection_config;
  buckets : option buckets_config;
  stack : option string
}.

(** ** The cumulus_process library

    [Process.fetch], [s3.upload] and [Process.clean_output] are not part of
    this file: they are taken as an interface. They act on the local file
    system and on a state of their own ([X]: the remote store, the work
    directory, the download list); [fetch] is handed the handler's
    [input_keys] and the items of [self.input]. They may return or raise
    as they like, but they are given filenames only, and hold no reference
    to the objects of the caller's payload. *)
Class Library (X : Type) : Type := {
  lib_fetch : list (string * string) → string → bool → list val →
              M (FS * X) (list string);
  lib_upload : string → string → M (FS * X) unit;
  lib_clean_output : M (FS * X) unit
}.

(** ** PythonProcess *)
Section PythonProcess.
Context {X : Type} `{!Library X}.

(** The state a call runs in: the object store, the handler's [input]
    and [config] attributes, the file system and the library's state.
    [recursion_limit] is the interpreter's bound on nested calls. *)
Record World : Type := mkWorld {
  heap : Heap;
  self_input : val;
  self_config : Config;
  fs : FS;
  ext : X;
  recursion_limit : nat
}.

Definition set_heap (h : Heap) (w : World) : World :=
  mkWorld h (self_input w) (self_config w) (fs w) (ext w) (recursion_limit w).

Definition set_fs (s : FS) (w : World) : World :=
  mkWorld (heap w) (self_input w) (self_config w) s (ext w) (recursion_limit w).

Definition set_lib (sx : FS * X) (w : World) : World :=
  mkWorld (heap w) (self_input w) (self_config w) sx.1 sx.2 (recursion_limit w).

Definition set_input (v : val) : M World unit :=
  modify (λ w, mkWorld (heap w) v (self_config w) (fs w) (ext w)
                       (recursion_limit w)).

Definition on_heap {A} : M Heap A → M World A := zoom heap set_heap.
Definition on_fs {A} : M FS A → M World A := zoom fs set_fs.
Definition on_lib {A} : M (FS * X) A → M World A :=
  zoom (λ w, (fs w, ext w)) set_lib.

Definition input_keys : list (string * string) :=
  [("hdf", "^.*\.hdf$"); ("all", ".*")].

(** [self.fetch(key, remote=...)] *)
Definition fetch (k : string) (remote : bool) : M World (list string) :=
  input ← gets self_input;
  items ← on_heap (iterate input);
  on_lib (lib_fetch input_keys k remote items).

Definition upload (local_file remote_key : string) : M World unit :=
  on_lib (lib_upload local_file remote_key).

Definition clean_output : M World unit := on_lib lib_clean_output.

Definition _get_md5_sum (local_file : string) : M World string :=
  on_fs (with_open local_file RB (λ file,
    data ← read file;
    mret (MD5.hexdigest data))).

Definition _write_md5sum_file (md5_file md5_sum : string) : M World unit :=
  on_fs (with_open md5_file W (λ write_file, write write_file md5_sum)).

Definition add_ancillary_file (local_file : string) : M World string :=
  config ← gets self_config;
  md5_sum ← _get_md5_sum local_file;
  let md5_file := local_file +:+ ".md5" in
  let filename := (os_path_split md5_file).2 in
  c ← key "collection" (collection config);
  name ← key "name" (collection_name c);
  c ← key "collection" (collection config);
  version ← key "version" (collection_version c);
  let collection_string := (name +:+ "__") +:+ version in
  b ← key "buckets" (buckets config);
  i ← key "internal" (internal b);
  bucket ← key "name" (bucket_name i);
  stack ← key "stack" (stack config);
  let md5_key := ("s3://" +:+ bucket +:+ "/staging/") +:+
                 (stack +:+ "/" +:+ collection_string +:+ "/" +:+ filename) in
  _write_md5sum_file md5_file md5_sum;;
  upload md5_file md5_key;;
  mret md5_key.

Definition process : M World (list val) :=
  input ← gets self_input;
  limit ← gets recursion_limit;
  payload_granules ← on_heap (subscript input "granules");
  '(granules, _) ← on_heap (deepcopy limit payload_granules ∅);
  original_file_names ← on_heap (
    gs ← iterate granules;
    for_each gs (λ granule,
      fl ← subscript granule "files";
      fl ← iterate fl;
      for_each fl (λ file,
        name ← subscript file "filename";
        mret [name])));
  data_file_names ← on_heap (
    gs ← iterate granules;
    for_each gs (λ granule,
      fl ← subscript granule "files";
      fl ← iterate fl;
      for_each fl (λ file,
        type ← subscript file "type";
        if eq_str type "data"
        then name ← subscript file "filename"; mret [name]
        else mret [])));
  new_input ← on_heap (alloc (OList data_file_names));
  set_input (VRef new_input);;
  local_data_file_list ← fetch "hdf" false;
  metadata_file_list ← mapM add_ancillary_file local_data_file_list;
  clean_output;;
  mret (map VStr metadata_file_list ++ original_file_names).

End PythonProcess.

Arguments World X : clear implicits.

(** ** The job input as data

    What the store holds, read back as a finite tree, and the typed view
    the input contract gives of it: a payload has [granules], a granule
    has [files], a file has a [filename] and a [type]; other keys are
    allowed and ignored. *)
#[warnings="-register-all"]
Inductive tree : Type :=
| TStr (s : string)
| TInt (n : Z)
| TNone
| TList (items : list tree)
| TDict (items : list (string * tree)).

Fixpoint read_tree (n : nat) (m : gmap nat obj) (v : val) : option tree :=
  match v with
  | VStr s => Some (TStr s)
  | VInt z => Some (TInt z)
  | VNone => Some TNone
  | VRef l =>
      match n with
      | O => None
      | S n' =>
          match m !! l with
          | Some (OList items) => TList <$> mapM (read_tree n' m) items
          | Some (ODict items) =>
              TDict <$> mapM (λ kv, pair kv.1 <$> read_tree n' m kv.2) items
          | None => None
          end
      end
  end.

Fixpoint tree_depth (t : tree) : nat :=
  match t with
  | TList items => S (foldr Nat.max 0 (map tree_depth items))
  | TDict items => S (foldr Nat.max 0 (map (λ kv, tree_depth kv.2) items))
  | _ => 0
  end.

Record File : Type := mkFile { filename : string; type : string }.

Record Granule : Type := mkGranule { files : list File }.

Definition view_file (t : tree) : option File :=
  match t with
  | TDict items =>
      match assoc "filename" items, assoc "type" items with
      | Some (TStr f), Some (TStr ty) => Some (mkFile f ty)
      | _, _ => None
      end
  | _ => None
  end.

Definition view_granule (t : tree) : option Granule :=
  match t with
  | TDict items =>
      match assoc "files" items with
      | Some (TList fl) => mkGranule <$> mapM view_file fl
      | _ => None
      end
  | _ => None
  end.

Definition view_payload (t : tree) : option (list Granule) :=
  match t with
  | TDict items =>
      match assoc "granules" items with
      | Some (TList gs) => mapM view_granule gs
      | _ => None
      end
  | _ => None
  end.

(** The filenames of every file of every granule, in iteration order. *)
Definition all_file_names (gs : list Granule) : list string :=
  flat_map (λ g, map filename (files g)) gs.

Definition is_data (f : File) : bool := bool_decide (type f = "data").

(** The filenames of the files of type ["data"], in iteration order. *)
Definition data_file_names (gs : list Granule) : list string :=
  flat_map (λ g, map filename (List.filter is_data (files g))) gs.

(** ** The remote key, as the interface documents it *)
Definition remote_key (bucket stack name version local_filename : string)
    : string :=
  "s3://" +:+ bucket +:+ "/staging/" +:+ stack +:+ "/" +:+
  name +:+ "__" +:+ version +:+ "/" +:+ local_filename +:+ ".md5".

Definition config_values (cfg : Config)
    : option (string * string * string * string) :=
  c ← collection cfg;
  name ← collection_name c;
  version ← collection_version c;
  b ← buckets cfg;
  i ← internal b;
  bucket ← bucket_name i;
  stack ← stack cfg;
  Some (bucket, stack, name, version).

Definition sidecar_key (cfg : Config) (local_file : string) : option string :=
  '(bucket, stack, name, version) ← config_values cfg;
  Some (remote_key bucket stack name version (os_path_split local_file).2).

Definition lower_hex (c : ascii) : bool :=
  bool_decide (c ∈ MD5.hex_digits).

Section Runs.
Context {X : Type} `{!Library X}.

(** A state whose [self.input] holds a job payload with granules [gs]:
    a finite tree within the interpreter's nesting bound. *)
Definition job_input (w : World X) (gs : list Granule) : Prop :=
  heap_wf (heap w) ∧
  ∃ t, read_tree (recursion_limit w) (objs (heap w)) (self_input w) = Some t ∧
       view_payload t = Some gs.

(** The file system as [_write_md5sum_file] leaves it. *)
Definition with_sidecar (local_file : string) (data : list byte) (s : FS)
    : FS :=
  set_files <[local_file +:+ ".md5" :=
              bytes_of_string (MD5.hexdigest data)]> s.

(** One sidecar: the file is read, its digest is written next to it,
    and the sidecar is uploaded under its key. *)
Definition sidecar_step (cfg : Config) (sx : FS * X) (local_file key : string)
    (sx' : FS * X) : Prop :=
  ∃ data,
    fs_files sx.1 !! local_file = Some data ∧
    (local_file ∉ faulty sx.1) ∧
    sidecar_key cfg local_file = Some key ∧
    (local_file +:+ ".md5" ∉ unwritable sx.1) ∧
    (local_file +:+ ".md5" ∉ faulty sx.1) ∧
    lib_upload (local_file +:+ ".md5") key
               (with_sidecar local_file data sx.1, sx.2) = (Val tt, sx').

(** The sidecars of a list of local files, one after the other. *)
Inductive sidecar_run (cfg : Config)
    : FS * X → list string → list string → FS * X → Prop :=
| run_done sx : sidecar_run cfg sx [] [] sx
| run_step sx p k sx1 ps ks sx2 :
    sidecar_step cfg sx p k sx1 →
    sidecar_run cfg sx1 ps ks sx2 →
    sidecar_run cfg sx (p :: ps) (k :: ks) sx2.

End Runs.

(** ** Reasoning about the store *)

(** [h'] extends [h]: the allocation pointer only moves up and nothing
    below where it stood has changed. *)
Definition heap_frame (h h' : Heap) : Prop :=
  next_loc h ≤ next_loc h' ∧
  ∀ l, l < next_loc h → objs h' !! l = objs h !! l.

Definition heap_ext (h h' : Heap) : Prop :=
  heap_frame h h' ∧ (heap_wf h → heap_wf h').

(** The part of a store allocated from [b] on. *)
Definition above (b : loc) (m : gmap nat obj) : gmap nat obj :=
  filter (λ kv, b ≤ kv.1) m.

Definition repr_in (m : gmap nat obj) (v : val) (t : tree) : Prop :=
  ∃ n, read_tree n m v = Some t.

(** The memo entries for objects of depth at most [d] in the source [m0]
    point to finished copies, which live above [b]. *)
Definition memo_ok (m0 : gmap nat obj) (b : loc) (h : Heap)
    (memo : gmap nat loc) (d : nat) : Prop :=
  ∀ l y t, memo !! l = Some y → repr_in m0 (VRef l) t → tree_depth t ≤ d →
           repr_in (above b (objs h)) (VRef y) t.

(** Entries added between [memo] and [memo'] are finished, at any depth. *)
Definition memo_new (m0 : gmap nat obj) (b : loc) (h' : Heap)
    (memo memo' : gmap nat loc) : Prop :=
  ∀ l y t, memo' !! l = Some y → memo !! l = None → repr_in m0 (VRef l) t →
           repr_in (above b (objs h')) (VRef y) t.

(** What the recursive calls of [deepcopy] are assumed to do, for sources
    read with fuel [n]. *)
Definition copier_ok (m0 : gmap nat obj) (b : loc) (n : nat)
    (cp : val → gmap nat loc → M Heap (val * gmap nat loc)) : Prop :=
  ∀ x t memo h,
    read_tree n m0 x = Some t →
    m0 ⊆ objs h → heap_wf h → b ≤ next_loc h →
    memo_ok m0 b h memo (tree_depth t) →
    ∃ x' memo' h',
      cp x memo h = (Val (x', memo'), h') ∧
      repr_in (above b (objs h')) x' t ∧
      memo ⊆ memo' ∧
      memo_new m0 b h' memo memo' ∧
      heap_ext h h'.

(** The key [add_ancillary_file] fails on when [config] lacks one: the
    first absent key, in the order the keys are read. *)
Definition missing_key (cfg : Config) : string :=
  match collection cfg with
  | None => "collection"
  | Some c =>
      match collection_name c, collection_version c with
      | None, _ => "name"
      | Some _, None => "version"
      | Some _, Some _ =>
          match buckets cfg with
          | None => "buckets"
          | Some b =>
              match internal b with
              | None => "internal"
              | Some i =>
                  match bucket_name i with
                  | None => "name"
                  | Some _ => "stack"
                  end
              end
          end
      end
  end.

(** Two states of one handler: they differ at most in the file system and
    in the library's state. *)
Definition same_handler {X} (w w' : World X) : Prop :=
  heap w' = heap w ∧ self_input w' = self_input w ∧
  self_config w' = self_config w ∧ recursion_limit w' = recursion_limit w.

Definition heap_only {A} (m : M Heap A) : Prop :=
  ∀ h, heap_ext h (m h).2.

Definition heap_grows {X A} (m : M (World X) A) : Prop :=
  ∀ w, heap_ext (heap w) (heap (m w).2).

Definition keeps_handler {X A} (m : M (World X) A) : Prop :=
  ∀ w, same_handler w (m w).2.

Section Outcomes.
Context {X : Type} `{!Library X}.

(** How a sidecar fails: the local file cannot be read, a key of the
    configuration is absent, the sidecar cannot be written, or the
    upload raises. [sx'] is the state the failure leaves. *)
Definition sidecar_failure (cfg : Config) (sx : FS * X) (local_file : string)
    (e : exn) (sx' : FS * X) : Prop :=
  let md5_file := local_file +:+ ".md5" in
  match fs_files sx.1 !! local_file with
  | None => e = FileNotFoundError local_file ∧ sx' = sx
  | Some data =>
      if bool_decide (local_file ∈ faulty sx.1)
      then e = OSError local_file ∧ sx' = sx
      else match sidecar_key cfg local_file with
           | None => e = KeyError (missing_key cfg) ∧ sx' = sx
           | Some k =>
               if bool_decide (md5_file ∈ unwritable sx.1)
               then e = PermissionError md5_file ∧ sx' = sx
               else if bool_decide (md5_file ∈ faulty sx.1)
               then e = OSError md5_file ∧
                    sx' = (set_files <[md5_file := []]> sx.1, sx.2)
               else lib_upload md5_file k
                      (with_sidecar local_file data sx.1, sx.2)
                    = (Exc e, sx')
           end
  end.

(** The state [process] leaves, with a job payload in [self.input]:
    the store has grown, [input] is a fresh list of the data files'
    names, [config] is as it was. *)
Definition narrowed (w : World X) (gs : list Granule) (w' : World X)
    : Prop :=
  heap_ext (heap w) (heap w') ∧
  self_config w' = self_config w ∧
  recursion_limit w' = recursion_limit w ∧
  ∃ l, self_input w' = VRef l ∧ next_loc (heap w) ≤ l ∧
       objs (heap w') !! l = Some (OList (map VStr (data_file_names gs))).

(** The rest of [process], from the call of [fetch] on. *)
Definition finish (data_file_names original_file_names : list val)
    : M (World X) (list val) :=
  local_data_file_list ←
    on_lib (lib_fetch input_keys "hdf" false data_file_names);
  metadata_file_list ← mapM add_ancillary_file local_data_file_list;
  clean_output;;
  mret (map VStr metadata_file_list ++ original_file_names).

(** How [process] fails once the payload is read: in [fetch], in the
    sidecar of one local file after those before it were made, or in
    the cleanup. [sx'] is the state the failure leaves. *)
Definition batch_failure (cfg : Config) (data_file_names : list val)
    (sx : FS * X) (e : exn) (sx' : FS * X) : Prop :=
  lib_fetch input_keys "hdf" false data_file_names sx = (Exc e, sx') ∨
  (∃ pre p post sx1 ks sx2,
      lib_fetch input_keys "hdf" false data_file_names sx
      = (Val (pre ++ p :: post), sx1) ∧
      sidecar_run cfg sx1 pre ks sx2 ∧
      sidecar_failure cfg sx2 p e sx') ∨
  (∃ locals sx1 ks sx2,
      lib_fetch input_keys "hdf" false data_file_names sx
      = (Val locals, sx1) ∧
      sidecar_run cfg sx1 locals ks sx2 ∧
      lib_clean_output sx2 = (Exc e, sx')).
End Outcomes.

(** ** An in-memory library, to run the handler on concrete inputs

    The remote store is a map from URLs to contents. [fetch] keeps the
    inputs whose base name matches the pattern of the key; an input that
    is not a local file is downloaded next to the working directory.
    [upload] copies a local file to the store. No output is registered,
    so [clean_output] has nothing to remove. *)
Module MemoryLibrary.

Definition store : Type := gmap string (list byte).

Fixpoint ends_with (suffix s : string) : bool :=
  bool_decide (s = suffix) ||
  match s with
  | EmptyString => false
  | String _ rest => ends_with suffix rest
  end.

Definition matches (regex name : string) : option bool :=
  if bool_decide (regex = "^.*\.hdf$") then Some (ends_with ".hdf" name)
  else if bool_decide (regex = ".*") then Some true
  else None.

Definition download (url : string) : M (FS * store) string := λ sx,
  match sx.2 !! url with
  | Some data =>
      let local := (os_path_split url).2 in
      (Val local, (set_files <[local := data]> sx.1, sx.2))
  | None => (Exc (LibraryError "download failed"), sx)
  end.

Definition fetch_one (regex : string) (remote : bool) (f : val)
    : M (FS * store) (list string) :=
  match f with
  | VStr f =>
      match matches regex (os_path_split f).2 with
      | Some true =>
          present ← gets (λ sx : FS * store, bool_decide (is_Some (fs_files sx.1 !! f)));
          if remote || present then mret [f]
          else local ← download f; mret [local]
      | Some false => mret []
      | None => raise (LibraryError "unsupported pattern")
      end
  | _ => raise TypeError
  end.

Definition fetch (keys : list (string * string)) (k : string) (remote : bool)
    (input : list val) : M (FS * store) (list string) :=
  match assoc k keys with
  | Some regex => for_each input (fetch_one regex remote)
  | None => raise (LibraryError "No files matching")
  end.

Definition upload (local_file remote_key : string) : M (FS * store) unit :=
  λ sx,
  match fs_files sx.1 !! local_file with
  | Some data => (Val tt, (sx.1, <[remote_key := data]> sx.2))
  | None => (Exc (FileNotFoundError local_file), sx)
  end.

#[export] Instance library : Library store := {
  lib_fetch := fetch;
  lib_upload := upload;
  lib_clean_output := mret tt
}.

End MemoryLibrary.

(** ** A concrete job: one granule with a data file and a metadata file *)
Module Example.
Import MemoryLibrary.

(** [{'granules': [{'files': [{'filename': 's3://in/modis.hdf', 'type':
    'data'}, {'filename': 's3://in/modis.cmr.xml', 'type':
    'metadata'}]}]}] *)
Definition payload_heap : Heap :=
  mkHeap (list_to_map
    [(0, ODict [("granules", VRef 1)]);
     (1, OList [VRef 2]);
     (2, ODict [("granuleId", VStr "MOD09"); ("files", VRef 3)]);
     (3, OList [VRef 4; VRef 5]);
     (4, ODict [("filename", VStr "s3://in/modis.hdf"); ("type", VStr "data")]);
     (5, ODict [("filename", VStr "s3://in/modis.cmr.xml");
                ("type", VStr "metadata")])]) 6.

Definition config : Config :=
  mkConfig (Some (mkCollection (Some "MOD09") (Some "006")))
           (Some (mkBuckets (Some (mkBucket (Some "mybucket")))))
           (Some "dev").

Definition remote : store :=
  {[ "s3://in/modis.hdf" := bytes_of_string "test" ]}.

Definition world : World store :=
  mkWorld payload_heap (VRef 0) config (mkFS ∅ ∅ ∅ []) remote 100.

Definition granules : list Granule :=
  [mkGranule [mkFile "s3://in/modis.hdf" "data";
              mkFile "s3://in/modis.cmr.xml" "metadata"]].

(** The same job when the data file is already in the working
    directory, as [modis.hdf] with bytes [b"test"]. *)
Definition local_fs : FS :=
  mkFS {[ "modis.hdf" := bytes_of_string "test" ]} ∅ ∅ [].

Definition local_world : World store :=
  mkWorld payload_heap (VRef 0) config local_fs ∅ 100.

(** The same job under a configuration without a stack label. *)
Definition config_without_stack : Config :=
  mkConfig (Some (mkCollection (Some "MOD09") (Some "006")))
           (Some (mkBuckets (Some (mkBucket (Some "mybucket")))))
           None.

Definition world_without_stack : World store :=
  mkWorld payload_heap (VRef 0) config_without_stack (mkFS ∅ ∅ ∅ [])
          remote 100.

(** A second job that differs from the first in its metadata files
    only. *)
Definition other_heap : Heap :=
  mkHeap (list_to_map
    [(0, ODict [("granules", VRef 1)]);
     (1, OList [VRef 2]);
     (2, ODict [("files", VRef 3)]);
     (3, OList [VRef 4; VRef 5]);
     (4, ODict [("type", VStr "browse"); ("filename", VStr "s3://in/modis.jpg")]);
     (5, ODict [("filename", VStr "s3://in/modis.hdf"); ("type", VStr "data")])])
    6.

Definition other_granules : list Granule :=
  [mkGranule [mkFile "s3://in/modis.jpg" "browse";
              mkFile "s3://in/modis.hdf" "data"]].

Definition other_world : World store :=
  mkWorld other_heap (VRef 0) config (mkFS ∅ ∅ ∅ []) remote 100.

End Example.

(** ** Payloads whose files lack a field

    A file of the payload may come without its [filename] or its [type]:
    the view below records which of the two it has. *)
Record LooseFile : Type := mkLooseFile {
  lf_filename : option string;
  lf_type : option string
}.

Definition view_field (k : string) (items : list (string * tree))
    : option (option string) :=
  match assoc k items with
  | None => Some None
  | Some (TStr s) => Some (Some s)
  | Some _ => None
  end.

Definition view_loose_file (t : tree) : option LooseFile :=
  match t with
  | TDict items =>
      fn ← view_field "filename" items;
      ty ← view_field "type" items;
      Some (mkLooseFile fn ty)
  | _ => None
  end.

Definition view_loose_granule (t : tree) : option (list LooseFile) :=
  match t with
  | TDict items =>
      match assoc "files" items with
      | Some (TList fl) => mapM view_loose_file fl
      | _ => None
      end
  | _ => None
  end.

Definition view_loose_payload (t : tree) : option (list (list LooseFile)) :=
  match t with
  | TDict items =>
      match assoc "granules" items with
      | Some (TList gs) => mapM view_loose_granule gs
      | _ => None
      end
  | _ => None
  end.

Definition loose_job_input {X} (w : World X) (gs : list (list LooseFile))
    : Prop :=
  heap_wf (heap w) ∧
  ∃ t, read_tree (recursion_limit w) (objs (heap w)) (self_input w) = Some t ∧
       view_loose_payload t = Some gs.

(** The two comprehensions of [process], by name. *)
Definition original_file_names_of (granules : val) : M Heap (list val) :=
  gs ← iterate granules;
  for_each gs (λ granule,
    fl ← subscript granule "files";
    fl ← iterate fl;
    for_each fl (λ file,
      name ← subscript file "filename";
      mret [name])).

Definition data_file_names_of (granules : val) : M Heap (list val) :=
  gs ← iterate granules;
  for_each gs (λ granule,
    fl ← subscript granule "files";
    fl ← iterate fl;
    for_each fl (λ file,
      type ← subscript file "type";
      if eq_str type "data"
      then name ← subscript file "filename"; mret [name]
      else mret [])).

Definition has_filename (f : LooseFile) : bool :=
  bool_decide (is_Some (lf_filename f)).

Definition has_type (f : LooseFile) : bool :=
  bool_decide (is_Some (lf_type f)).

(** A computation that reads the store and leaves it as it is. *)
Definition heap_pure {A} (m : M Heap A) : Prop := ∀ h, (m h).2 = h.

(** [c] does not occur in [s]. *)
Fixpoint without (c : ascii) (s : string) : bool :=
  match s with
  | EmptyString => true
  | String c' rest => negb (bool_decide (c' = c)) && without c rest
  end.

(** ** More example jobs *)
Module Malformed.
Import MemoryLibrary.

(** [{'meta': 'x'}]: no granules. *)
Definition no_granules : World store :=
  mkWorld (mkHeap (list_to_map [(0, ODict [("meta", VStr "x")])]) 1)
          (VRef 0) Example.config (mkFS ∅ ∅ ∅ []) Example.remote 100.

(** [{'granules': [{'files': [{'filename': 's3://in/modis.hdf'}]}]}]:
    a file without a type. *)
Definition no_type : World store :=
  mkWorld (mkHeap (list_to_map
             [(0, ODict [("granules", VRef 1)]);
              (1, OList [VRef 2]);
              (2, ODict [("files", VRef 3)]);
              (3, OList [VRef 4]);
              (4, ODict [("filename", VStr "s3://in/modis.hdf")])]) 5)
          (VRef 0) Example.config (mkFS ∅ ∅ ∅ []) Example.remote 100.

Definition no_type_files : list (list LooseFile) :=
  [[mkLooseFile (Some "s3://in/modis.hdf") None]].

(** A job with no files at all. *)
Definition no_files : World store :=
  mkWorld (mkHeap (list_to_map
             [(0, ODict [("granules", VRef 1)]); (1, OList [])]) 2)
          (VRef 0) Example.config (mkFS ∅ ∅ ∅ []) Example.remote 100.

(** [{'granules': [{'files': [{'type': 'data'}]}]}]: a file without a
    filename. *)
Definition no_filename : World store :=
  mkWorld (mkHeap (list_to_map
             [(0, ODict [("granules", VRef 1)]);
              (1, OList [VRef 2]);
              (2, ODict [("files", VRef 3)]);
              (3, OList [VRef 4]);
              (4, ODict [("type", VStr "data")])]) 5)
          (VRef 0) Example.config (mkFS ∅ ∅ ∅ []) Example.remote 100.

Definition no_filename_files : list (list LooseFile) :=
  [[mkLooseFile None (Some "data")]].

End Malformed.

(** The job of [Example] as another producer writes it: the payload has
    a [meta] entry, the granule has no id, the files give their type
    first and one of them has a size. *)
Module Variant.
Import MemoryLibrary.

Definition world : World store :=
  mkWorld (mkHeap (list_to_map
             [(0, ODict [("meta", VStr "x"); ("granules", VRef 1)]);
              (1, OList [VRef 2]);
              (2, ODict [("files", VRef 3)]);
              (3, OList [VRef 4; VRef 5]);
              (4, ODict [("type", VStr "data");
                         ("filename", VStr "s3://in/modis.hdf")]);
              (5, ODict [("type", VStr "metadata");
                         ("filename", VStr "s3://in/modis.cmr.xml");
                         ("size", VInt 12)])]) 6)
          (VRef 0) Example.config (mkFS ∅ ∅ ∅ []) Example.remote 100.

End Variant.

(** * Properties *)

Ltac munfold :=
  unfold mbind, mret, M_bind, M_ret, raise, gets, modify, zoom, key in *.

(** A decidable fact about concrete data, by evaluation. *)
Ltac by_compute := apply (bool_decide_unpack _); vm_compute; exact I.

(** ** The model on known values *)
Example md5_of_nothing :
  MD5.hexdigest [] = "d41d8cd98f00b204e9800998ecf8427e".
Proof. vm_compute. reflexivity. Qed.

Example md5_of_abc :
  MD5.hexdigest (bytes_of_string "abc") = "900150983cd24fb0d6963f7d28e17f72".
Proof. vm_compute. reflexivity. Qed.

Example md5_of_two_blocks :
  MD5.hexdigest (bytes_of_string
    "12345678901234567890123456789012345678901234567890123456789012345678901234567890")
  = "57edf4a22be3c955ac49da2e2107b67a".
Proof. vm_compute. reflexivity. Qed.

Example split_of_paths :
  os_path_split "/tmp/a//b.hdf" = ("/tmp/a", "b.hdf") ∧
  os_path_split "///x" = ("///", "x") ∧
  os_path_split "modis.hdf" = ("", "modis.hdf") ∧
  os_path_split "a/b/" = ("a/b", "").
Proof. repeat split; reflexivity. Qed.

Lemma bind_unfold {St A B} (m : M St A) (k : A → M St B) (s : St) :
  (m ≫= k) s =
  match m s with
  | (Val a, s') => k a s'
  | (Exc e, s') => (Exc e, s')
  end.
Proof. reflexivity. Qed.

Lemma ret_bind {St A B} (a : A) (k : A → M St B) (s : St) :
  (mret a ≫= k) s = k a s.
Proof. reflexivity. Qed.

(** ** The digest *)
Lemma digest_length (data : list byte) : length (MD5.digest data) = 16.
Proof.
  unfold MD5.digest.
  destruct (fold_left MD5.compress _ MD5.init). reflexivity.
Qed.

Lemma length_string_of_list_ascii (l : list ascii) :
  String.length (string_of_list_ascii l) = length l.
Proof. induction l; simpl; congruence. Qed.

Lemma hexdigest_length (data : list byte) :
  String.length (MD5.hexdigest data) = 32.
Proof.
  unfold MD5.hexdigest. rewrite length_string_of_list_ascii.
  pose proof (digest_length data) as Hd.
  revert Hd. generalize (MD5.digest data) as d. intros d.
  assert (Hl : ∀ l : list byte, length (flat_map MD5.hex_of_byte l) = 2 * length l).
  { induction l as [|b l IH]; simpl; [done | rewrite IH; lia]. }
  intros Hd. rewrite Hl, Hd. reflexivity.
Qed.

Lemma hex_of_byte_lower (b : byte) :
  Forall (λ c, lower_hex c = true) (MD5.hex_of_byte b).
Proof. destruct b; repeat constructor. Qed.

Lemma hexdigest_lower_hex (data : list byte) :
  Forall (λ c, lower_hex c = true)
         (list_ascii_of_string (MD5.hexdigest data)).
Proof.
  unfold MD5.hexdigest. rewrite list_ascii_of_string_of_list_ascii.
  induction (MD5.digest data) as [|b l IH]; simpl.
  - constructor.
  - pose proof (hex_of_byte_lower b) as Hb.
    inversion Hb as [|? ? ? Hb' E]; subst. inversion Hb'; subst.
    repeat constructor; assumption.
Qed.

(** ** Strings *)
Lemma append_assoc (s1 s2 s3 : string) :
  (s1 +:+ s2) +:+ s3 = s1 +:+ (s2 +:+ s3).
Proof.
  induction s1 as [|c s1 IH]; [done |].
  change (String c ((s1 +:+ s2) +:+ s3) = String c (s1 +:+ s2 +:+ s3)).
  by f_equal.
Qed.

(** ** os.path.split *)
Lemma rfind1_le (p : string) : rfind1 p ≤ String.length p.
Proof.
  induction p as [|c p IH]; simpl; [lia |].
  destruct (rfind1 p); [case_bool_decide; lia | lia].
Qed.

Lemma rfind1_app (p s : string) :
  rfind1 s = 0 → rfind1 (p +:+ s) = rfind1 p.
Proof.
  intros Hs. induction p as [|c p IH]; simpl; [done |]. by rewrite IH.
Qed.

Lemma str_drop_app (i : nat) (p s : string) :
  i ≤ String.length p → str_drop i (p +:+ s) = str_drop i p +:+ s.
Proof.
  revert p. induction i as [|i IH]; intros [|c p] Hi; simpl in *;
    try done; try lia.
  apply IH. lia.
Qed.

(** The last component of [local_file + '.md5'] is the last component of
    [local_file], followed by ['.md5']. *)
Lemma split_md5 (p : string) :
  (os_path_split (p +:+ ".md5")).2 = (os_path_split p).2 +:+ ".md5".
Proof.
  unfold os_path_split. simpl.
  rewrite rfind1_app by reflexivity.
  apply str_drop_app, rfind1_le.
Qed.

(** ** Scoped file access *)
Lemma remove_first_cons (p : string) (l : list string) :
  remove_first p (p :: l) = l.
Proof. simpl. by rewrite bool_decide_eq_true_2. Qed.

Lemma FS_eta (s : FS) :
  mkFS (fs_files s) (unwritable s) (faulty s) (open_files s) = s.
Proof. by destruct s. Qed.

(** Whatever the body does to the files, [with] leaves the handles as the
    body leaves them, less the one it opened. *)
Lemma with_open_handles {A} (path : string) (m : mode)
    (body : string → M FS A) (s : FS) :
  (∀ f s1, open_files (body f s1).2 = open_files s1) →
  open_files (with_open path m body s).2 = open_files s.
Proof.
  intros Hbody. unfold with_open, open.
  destruct m.
  - destruct (fs_files s !! path); [|done].
    specialize (Hbody path (set_open_files (cons path) s)).
    destruct (body path _) as [r s2]. simpl in *.
    rewrite Hbody. apply remove_first_cons.
  - case_bool_decide; [done |].
    specialize (Hbody path (set_open_files (cons path)
                              (set_files <[path := []]> s))).
    destruct (body path _) as [r s2]. simpl in *.
    rewrite Hbody. apply remove_first_cons.
Qed.

Lemma read_handles (f : string) (s : FS) :
  open_files (read f s).2 = open_files s.
Proof.
  unfold read. case_bool_decide; [done |]. by destruct (fs_files s !! f).
Qed.

Lemma write_handles (f text : string) (s : FS) :
  open_files (write f text s).2 = open_files s.
Proof. unfold write. by case_bool_decide. Qed.

Lemma read_file_ok (p : string) (data : list byte) (s : FS) :
  fs_files s !! p = Some data → p ∉ faulty s →
  with_open p RB (λ file, data ← read file; mret (MD5.hexdigest data)) s
  = (Val (MD5.hexdigest data), s).
Proof.
  intros Hp Hf. unfold with_open, open, read. rewrite Hp. munfold. simpl.
  rewrite bool_decide_eq_false_2 by done. rewrite Hp. simpl.
  unfold set_open_files. simpl.
  rewrite bool_decide_eq_true_2 by done. by rewrite FS_eta.
Qed.

Lemma write_file_ok (p text : string) (s : FS) :
  p ∉ unwritable s → p ∉ faulty s →
  with_open p W (λ write_file, write write_file text) s
  = (Val tt, set_files <[p := bytes_of_string text]> s).
Proof.
  intros Hu Hf. unfold with_open, open, write.
  rewrite bool_decide_eq_false_2 by done. simpl.
  rewrite bool_decide_eq_false_2 by done.
  unfold set_open_files, set_files. simpl.
  rewrite bool_decide_eq_true_2 by done.
  by rewrite insert_insert_eq.
Qed.

(** ** The store only grows *)
Lemma heap_frame_refl (h : Heap) : heap_frame h h.
Proof. split; [lia | done]. Qed.

Lemma heap_frame_trans (h1 h2 h3 : Heap) :
  heap_frame h1 h2 → heap_frame h2 h3 → heap_frame h1 h3.
Proof.
  intros [Hn1 Hl1] [Hn2 Hl2]. split; [lia |].
  intros l Hl. rewrite Hl2 by lia. by apply Hl1.
Qed.

Lemma heap_ext_refl (h : Heap) : heap_ext h h.
Proof. split; [apply heap_frame_refl | done]. Qed.

Lemma heap_ext_trans (h1 h2 h3 : Heap) :
  heap_ext h1 h2 → heap_ext h2 h3 → heap_ext h1 h3.
Proof.
  intros [Hf1 Hw1] [Hf2 Hw2].
  split; [by eapply heap_frame_trans | auto].
Qed.

Lemma heap_wf_lookup (h : Heap) (l : loc) (o : obj) :
  heap_wf h → objs h !! l = Some o → l < next_loc h.
Proof. intros Hwf Hl. exact (Hwf l o Hl). Qed.

Lemma heap_wf_fresh (h : Heap) (l : loc) :
  heap_wf h → next_loc h ≤ l → objs h !! l = None.
Proof.
  intros Hwf Hl. destruct (objs h !! l) as [o|] eqn:E; [|done].
  apply (heap_wf_lookup h l o Hwf) in E. lia.
Qed.

Lemma heap_ext_subseteq (h h' : Heap) :
  heap_wf h → heap_ext h h' → objs h ⊆ objs h'.
Proof.
  intros Hwf [[_ Hl] _]. apply map_subseteq_spec. intros l o Ho.
  rewrite Hl; [done | by eapply heap_wf_lookup].
Qed.

Lemma reserve_ext (h : Heap) : heap_ext h (reserve h).2.
Proof.
  split; [split; simpl; [lia | done] |].
  intros Hwf l o Hl. simpl in *. specialize (Hwf l o Hl). simpl in Hwf. lia.
Qed.

Lemma fill_ext (h0 h : Heap) (l : loc) (o : obj) :
  next_loc h0 ≤ l → l < next_loc h → heap_ext h0 h →
  heap_ext h0 (fill l o h).2.
Proof.
  intros Hl0 Hl [[Hn Hf] Hwf]. split; [split |]; simpl.
  - done.
  - intros l' Hl'. rewrite lookup_insert_ne by lia. by apply Hf.
  - intros Hwf0. apply map_Forall_insert_2; [done | by apply Hwf].
Qed.

Lemma alloc_ext (o : obj) (h : Heap) : heap_ext h (alloc o h).2.
Proof.
  unfold alloc. munfold. simpl.
  apply (fill_ext h (reserve h).2 (next_loc h) o); simpl;
    [lia | lia | apply reserve_ext].
Qed.

Lemma deref_state (l : loc) (h : Heap) : (deref l h).2 = h.
Proof. unfold deref. by destruct (objs h !! l). Qed.

Lemma copy_items_ext cp :
  (∀ x memo h, heap_ext h (cp x memo h).2) →
  ∀ items memo h, heap_ext h (copy_items cp items memo h).2.
Proof.
  intros Hcp. induction items as [|a rest IH]; intros memo h; simpl.
  - apply heap_ext_refl.
  - rewrite bind_unfold. specialize (Hcp a memo h).
    destruct (cp a memo h) as [[[a' memo1]|e] h1]; simpl in *; [|done].
    rewrite bind_unfold. specialize (IH memo1 h1).
    destruct (copy_items cp rest memo1 h1) as [[[rest' memo2]|e] h2];
      simpl in *; by eapply heap_ext_trans.
Qed.

Lemma copy_entries_ext cp :
  (∀ x memo h, heap_ext h (cp x memo h).2) →
  ∀ items memo h, heap_ext h (copy_entries cp items memo h).2.
Proof.
  intros Hcp. induction items as [|[k v] rest IH]; intros memo h; simpl.
  - apply heap_ext_refl.
  - rewrite bind_unfold. specialize (Hcp v memo h).
    destruct (cp v memo h) as [[[v' memo1]|e] h1]; simpl in *; [|done].
    rewrite bind_unfold. specialize (IH memo1 h1).
    destruct (copy_entries cp rest memo1 h1) as [[[rest' memo2]|e] h2];
      simpl in *; by eapply heap_ext_trans.
Qed.

(** [deepcopy] writes to fresh objects only, whatever it returns. *)
Lemma deepcopy_ext (fuel : nat) (x : val) (memo : gmap nat loc) (h : Heap) :
  heap_ext h (deepcopy fuel x memo h).2.
Proof.
  revert x memo h. induction fuel as [|fuel IH]; intros x memo h;
    destruct x as [s|z| |l]; simpl; try apply heap_ext_refl.
  - destruct (memo !! l); apply heap_ext_refl.
  - destruct (memo !! l); [apply heap_ext_refl |].
    rewrite bind_unfold. pose proof (deref_state l h) as Hd.
    destruct (deref l h) as [[o|e] h0]; simpl in Hd; subst h0;
      [|apply heap_ext_refl].
    rewrite bind_unfold. simpl.
    pose proof (reserve_ext h) as Hres. simpl in Hres.
    set (h1 := mkHeap (objs h) (S (next_loc h))) in *.
    destruct o as [items|items].
    + rewrite bind_unfold.
      pose proof (copy_items_ext _ IH items (<[l:=next_loc h]> memo) h1) as Hc.
      destruct (copy_items _ items _ h1) as [[[items' memo2]|e] h2];
        simpl in *; [|by eapply heap_ext_trans].
      apply (fill_ext h h2 (next_loc h)); [lia | | by eapply heap_ext_trans].
      destruct Hc as [[Hn _] _]. simpl in Hn. lia.
    + rewrite bind_unfold.
      pose proof (copy_entries_ext _ IH items (<[l:=next_loc h]> memo) h1) as Hc.
      destruct (copy_entries _ items _ h1) as [[[items' memo2]|e] h2];
        simpl in *; [|by eapply heap_ext_trans].
      apply (fill_ext h h2 (next_loc h)); [lia | | by eapply heap_ext_trans].
      destruct Hc as [[Hn _] _]. simpl in Hn. lia.
Qed.

(** ** Reading the store back *)
Lemma read_tree_mono (n n' : nat) (m m' : gmap nat obj) (v : val) (t : tree) :
  read_tree n m v = Some t → n ≤ n' → m ⊆ m' → read_tree n' m' v = Some t.
Proof.
  revert n' v t. induction n as [|n IH]; intros n' v t Hr Hn Hm;
    destruct v as [s|z| |l]; simpl in *; try done;
    try (by destruct n').
  destruct n' as [|n']; [lia |]. simpl.
  destruct (m !! l) as [o|] eqn:Hl; [|done].
  rewrite (lookup_weaken _ _ _ _ Hl Hm).
  destruct o as [items|items].
  - apply fmap_Some in Hr as (ts & Hts & ->).
    apply fmap_Some. exists ts. split; [|done].
    apply mapM_Some. apply mapM_Some in Hts.
    eapply Forall2_impl; [exact Hts |]. intros x y Hxy. apply IH; [done | lia | done].
  - apply fmap_Some in Hr as (ts & Hts & ->).
    apply fmap_Some. exists ts. split; [|done].
    apply mapM_Some. apply mapM_Some in Hts.
    eapply Forall2_impl; [exact Hts |]. intros x y Hxy. simpl in *.
    apply fmap_Some in Hxy as (t' & Ht' & ->).
    apply fmap_Some. exists t'. split; [|done]. apply IH; [done | lia | done].
Qed.

Lemma repr_in_mono (m m' : gmap nat obj) (v : val) (t : tree) :
  repr_in m v t → m ⊆ m' → repr_in m' v t.
Proof. intros [n Hn] Hm. exists n. by eapply read_tree_mono. Qed.

Lemma repr_in_fun (m : gmap nat obj) (v : val) (t t' : tree) :
  repr_in m v t → repr_in m v t' → t = t'.
Proof.
  intros [n Hn] [n' Hn'].
  apply (read_tree_mono n (n `max` n') m m) in Hn; [|lia | done].
  apply (read_tree_mono n' (n `max` n') m m) in Hn'; [|lia | done].
  congruence.
Qed.

Lemma repr_in_common (m : gmap nat obj) (vs : list val) (ts : list tree) :
  Forall2 (repr_in m) vs ts →
  ∃ n, Forall2 (λ v t, read_tree n m v = Some t) vs ts.
Proof.
  induction 1 as [|v t vs ts [n Hn] _ [n' IH]].
  - exists 0. constructor.
  - exists (n `max` n'). constructor.
    + eapply read_tree_mono; [exact Hn | lia | done].
    + eapply Forall2_impl; [exact IH |]. intros x y Hxy. simpl in Hxy.
      eapply read_tree_mono; [exact Hxy | lia | done].
Qed.

Lemma repr_in_list (m : gmap nat obj) (l : loc) (vs : list val)
    (ts : list tree) :
  m !! l = Some (OList vs) → Forall2 (repr_in m) vs ts →
  repr_in m (VRef l) (TList ts).
Proof.
  intros Hl Hvs. apply repr_in_common in Hvs as [n Hn].
  exists (S n). simpl. rewrite Hl. apply fmap_Some. exists ts.
  split; [|done]. by apply mapM_Some.
Qed.

Lemma repr_in_dict (m : gmap nat obj) (l : loc) (vs : list val)
    (kts : list (string * tree)) :
  m !! l = Some (ODict (zip (kts.*1) vs)) → Forall2 (repr_in m) vs (kts.*2) →
  repr_in m (VRef l) (TDict kts).
Proof.
  intros Hl Hvs. apply repr_in_common in Hvs as [n Hn].
  exists (S n). simpl. rewrite Hl. apply fmap_Some. exists kts.
  split; [|done]. apply mapM_Some.
  clear Hl. revert vs Hn. induction kts as [|[k t] kts IH]; intros vs Hn.
  - inversion Hn; subst. constructor.
  - inversion Hn as [|v ? vs' ? Hv Hvs']; subst. simpl. constructor.
    + simpl. by rewrite Hv.
    + by apply IH.
Qed.

Lemma read_dict_values (n : nat) (m : gmap nat obj)
    (items : list (string * val)) (kts : list (string * tree)) :
  mapM (λ kv, pair kv.1 <$> read_tree n m kv.2) items = Some kts →
  kts.*1 = items.*1 ∧
  Forall2 (λ v t, read_tree n m v = Some t) (items.*2) (kts.*2).
Proof.
  intros H. apply mapM_Some in H.
  induction H as [|[k v] [k' t] items kts Hkv _ [IH1 IH2]]; simpl in *.
  - done.
  - apply fmap_Some in Hkv as (t' & Ht' & [= -> ->]).
    split; [by f_equal | by constructor].
Qed.

Lemma depth_list_item (ts : list tree) (t : tree) :
  t ∈ ts → tree_depth t < tree_depth (TList ts).
Proof.
  simpl. induction 1 as [t ts|t t' ts _ IH]; simpl; lia.
Qed.

Lemma depth_dict_item (kts : list (string * tree)) (t : tree) :
  t ∈ kts.*2 → tree_depth t < tree_depth (TDict kts).
Proof.
  simpl. induction kts as [|[k t'] kts IH]; simpl; intros Hin.
  - by apply elem_of_nil in Hin.
  - apply elem_of_cons in Hin as [->|Hin]; [lia |]. specialize (IH Hin). lia.
Qed.

Lemma above_mono (b : loc) (m m' : gmap nat obj) :
  m ⊆ m' → above b m ⊆ above b m'.
Proof. apply map_filter_subseteq_mono. Qed.

(** ** The memo of [deepcopy] *)
Lemma memo_ok_weaken m0 b h memo (d d' : nat) :
  memo_ok m0 b h memo d → d' ≤ d → memo_ok m0 b h memo d'.
Proof. intros H Hd l y t Hl Hr Ht. apply (H l y t Hl Hr). lia. Qed.

Lemma memo_ok_step m0 b h h1 memo memo1 (d : nat) :
  memo_ok m0 b h memo d → memo ⊆ memo1 → memo_new m0 b h1 memo memo1 →
  objs h ⊆ objs h1 → memo_ok m0 b h1 memo1 d.
Proof.
  intros Hok Hsub Hnew Hh l y t Hl Hr Ht.
  destruct (memo !! l) as [y0|] eqn:E.
  - rewrite (lookup_weaken _ _ _ _ E Hsub) in Hl. injection Hl as ->.
    eapply repr_in_mono; [by eapply Hok | by apply above_mono].
  - by eapply Hnew.
Qed.

Lemma memo_new_trans m0 b h1 h2 memo memo1 memo2 :
  memo_new m0 b h1 memo memo1 → memo_new m0 b h2 memo1 memo2 →
  memo1 ⊆ memo2 → objs h1 ⊆ objs h2 → memo_new m0 b h2 memo memo2.
Proof.
  intros Hn1 Hn2 Hsub Hh l y t Hl Hnone Hr.
  destruct (memo1 !! l) as [y1|] eqn:E.
  - rewrite (lookup_weaken _ _ _ _ E Hsub) in Hl. injection Hl as ->.
    eapply repr_in_mono; [by eapply Hn1 | by apply above_mono].
  - by eapply Hn2.
Qed.

Lemma copy_items_correct m0 b n cp :
  copier_ok m0 b n cp →
  ∀ items ts memo h d,
    Forall2 (λ v t, read_tree n m0 v = Some t) items ts →
    Forall (λ t, tree_depth t ≤ d) ts →
    m0 ⊆ objs h → heap_wf h → b ≤ next_loc h →
    memo_ok m0 b h memo d →
    ∃ items' memo' h',
      copy_items cp items memo h = (Val (items', memo'), h') ∧
      Forall2 (repr_in (above b (objs h'))) items' ts ∧
      memo ⊆ memo' ∧
      memo_new m0 b h' memo memo' ∧
      heap_ext h h'.
Proof.
  intros Hcp items ts memo h d Hread. revert memo h.
  induction Hread as [|a t items ts Ha _ IH]; intros memo h Hd Hm0 Hwf Hb Hok.
  - exists [], memo, h. simpl. split; [done |]. split; [constructor |].
    split; [done |]. split; [|apply heap_ext_refl].
    intros l y t Hl Hnone. congruence.
  - apply Forall_cons in Hd as [Hda Hd].
    destruct (Hcp a t memo h Ha Hm0 Hwf Hb (memo_ok_weaken _ _ _ _ _ _ Hok Hda))
      as (a' & memo1 & h1 & Hrun1 & Hr1 & Hsub1 & Hnew1 & Hext1).
    pose proof (heap_ext_subseteq h h1 Hwf Hext1) as Hh1.
    destruct (IH memo1 h1 Hd) as (rest' & memo2 & h2 & Hrun2 & Hr2 & Hsub2 & Hnew2 & Hext2).
    { by etrans. }
    { by apply Hext1. }
    { destruct Hext1 as [[Hn _] _]. lia. }
    { by eapply memo_ok_step. }
    assert (heap_wf h1) as Hwf1 by by apply Hext1.
    pose proof (heap_ext_subseteq h1 h2 Hwf1 Hext2) as Hh2.
    exists (a' :: rest'), memo2, h2. simpl.
    rewrite bind_unfold, Hrun1. simpl. rewrite bind_unfold, Hrun2. simpl.
    split; [done |]. split.
    { constructor; [|done]. eapply repr_in_mono; [done | by apply above_mono]. }
    split; [by etrans |]. split; [by eapply memo_new_trans |].
    by eapply heap_ext_trans.
Qed.

Lemma copy_entries_items cp (items : list (string * val)) memo h :
  copy_entries cp items memo h =
  match copy_items cp (items.*2) memo h with
  | (Val (vs, memo'), h') => (Val (zip (items.*1) vs, memo'), h')
  | (Exc e, h') => (Exc e, h')
  end.
Proof.
  revert memo h. induction items as [|[k v] rest IH]; intros memo h.
  - done.
  - change (((k, v) :: rest).*2) with (v :: rest.*2).
    change (((k, v) :: rest).*1) with (k :: rest.*1).
    cbn [copy_entries copy_items]. rewrite !bind_unfold.
    destruct (cp v memo h) as [[[v' memo1]|e] h1]; [|done].
    cbn beta iota. rewrite !bind_unfold, IH.
    by destruct (copy_items cp (rest.*2) memo1 h1) as [[[vs memo2]|e] h2].
Qed.

(** [deepcopy] of a finite tree returns a copy that reads back as the same
    tree and lies entirely above [b]. *)
Lemma deepcopy_correct m0 b (n : nat) :
  ∀ fuel, n ≤ fuel → copier_ok m0 b n (deepcopy fuel).
Proof.
  induction n as [|n IH]; intros fuel Hfuel x t memo h Hread Hm0 Hwf Hb Hok.
  - destruct x as [s|z| |l]; simpl in Hread; try done;
      injection Hread as <-.
    all: eexists _, memo, h; (split; [by destruct fuel |]);
      (split; [by exists 0 |]); (split; [done |]);
      (split; [|apply heap_ext_refl]); intros l y t Hl Hnone; congruence.
  - destruct x as [s|z| |l].
    1-3: simpl in Hread; injection Hread as <-;
      eexists _, memo, h; (split; [by destruct fuel |]);
      (split; [by exists 0 |]); (split; [done |]);
      (split; [|apply heap_ext_refl]); intros l y t Hl Hnone; congruence.
    destruct (memo !! l) as [y|] eqn:Hmemo.
    { exists (VRef y), memo, h.
      split; [destruct fuel; simpl; by rewrite Hmemo |].
      split; [eapply Hok; [done | by exists (S n) | done] |].
      split; [done |]. split; [|apply heap_ext_refl].
      intros l' y' t' Hl Hnone; congruence. }
    destruct fuel as [|fuel]; [lia |].
    simpl in Hread. destruct (m0 !! l) as [o|] eqn:Hl; [|done].
    pose proof (lookup_weaken _ _ _ _ Hl Hm0) as Hlh.
    set (y := next_loc h).
    set (h1 := mkHeap (objs h) (S y)).
    set (memo1 := <[l := y]> memo).
    assert (heap_ext h h1) as Hext1 by apply (reserve_ext h).
    assert (heap_wf h1) as Hwf1 by by apply Hext1.
    assert (repr_in m0 (VRef l) t) as Hrepr.
    { exists (S n). simpl. by rewrite Hl. }
    assert (∀ d, d < tree_depth t → memo_ok m0 b h1 memo1 d) as Hok1.
    { intros d Hd l' y' t' Hl' Hr' Ht'. unfold memo1 in Hl'.
      destruct (decide (l = l')) as [<-|Hne].
      - rewrite (repr_in_fun _ _ _ _ Hr' Hrepr) in Ht'. lia.
      - rewrite lookup_insert_ne in Hl' by done.
        apply (Hok l' y' t' Hl' Hr'). lia. }
    assert (memo ⊆ memo1) as Hsub1 by by apply insert_subseteq.
    simpl. rewrite Hmemo, bind_unfold.
    unfold deref at 1. rewrite Hlh. rewrite bind_unfold. simpl.
    fold y h1 memo1.
    destruct o as [items|items].
    + apply fmap_Some in Hread as (ts & Hts & ->).
      apply mapM_Some in Hts.
      destruct (copy_items_correct m0 b n (deepcopy fuel) (IH fuel ltac:(lia))
                  items ts memo1 h1 (pred (tree_depth (TList ts))) Hts)
        as (items' & memo2 & h2 & Hrun & Hr2 & Hsub2 & Hnew2 & Hext2).
      { apply Forall_forall. intros t' Hin.
        pose proof (depth_list_item ts t' Hin). lia. }
      { done. } { done. } { simpl. lia. }
      { apply Hok1. simpl. lia. }
      rewrite bind_unfold, Hrun. simpl.
      set (h3 := mkHeap (<[y := OList items']> (objs h2)) (next_loc h2)).
      assert (heap_ext h h2) as Hext02 by by eapply heap_ext_trans.
      assert (objs h2 !! y = None) as Hy.
      { destruct Hext2 as [[_ Hf] _]. rewrite Hf by (simpl; lia).
        simpl. by apply heap_wf_fresh. }
      assert (objs h2 ⊆ objs h3) as Hh23 by by apply insert_subseteq.
      assert (repr_in (above b (objs h3)) (VRef y) (TList ts)) as Hcopy.
      { apply (repr_in_list _ y items').
        - apply map_lookup_filter_Some. split; [apply lookup_insert_eq | done].
        - eapply Forall2_impl; [exact Hr2 |]. intros v t' Hv.
          eapply repr_in_mono; [done | by apply above_mono]. }
      exists (VRef y), memo2, h3.
      split; [done |]. split; [done |]. split; [by etrans |].
      split.
      * intros l' y' t' Hl' Hnone Hr'.
        destruct (decide (l = l')) as [<-|Hne].
        -- assert (memo2 !! l = Some y) as E.
           { eapply lookup_weaken; [apply lookup_insert_eq | done]. }
           rewrite E in Hl'. injection Hl' as <-.
           by rewrite (repr_in_fun _ _ _ _ Hr' Hrepr).
        -- eapply repr_in_mono; [|by apply above_mono].
           eapply Hnew2; [done | | done].
           unfold memo1. by rewrite lookup_insert_ne.
      * apply (fill_ext h h2 y (OList items')); [done | | done].
        destruct Hext2 as [[Hn _] _]. simpl in Hn. lia.
    + apply fmap_Some in Hread as (kts & Hkts & ->).
      apply read_dict_values in Hkts as [Hkeys Hvals].
      destruct (copy_items_correct m0 b n (deepcopy fuel) (IH fuel ltac:(lia))
                  (items.*2) (kts.*2) memo1 h1
                  (pred (tree_depth (TDict kts))) Hvals)
        as (items' & memo2 & h2 & Hrun & Hr2 & Hsub2 & Hnew2 & Hext2).
      { apply Forall_forall. intros t' Hin.
        pose proof (depth_dict_item kts t' Hin). lia. }
      { done. } { done. } { simpl. lia. }
      { apply Hok1. simpl. lia. }
      rewrite bind_unfold, copy_entries_items, Hrun. simpl.
      set (h3 := mkHeap (<[y := ODict (zip (items.*1) items')]> (objs h2))
                        (next_loc h2)).
      assert (heap_ext h h2) as Hext02 by by eapply heap_ext_trans.
      assert (objs h2 !! y = None) as Hy.
      { destruct Hext2 as [[_ Hf] _]. rewrite Hf by (simpl; lia).
        simpl. by apply heap_wf_fresh. }
      assert (objs h2 ⊆ objs h3) as Hh23 by by apply insert_subseteq.
      assert (repr_in (above b (objs h3)) (VRef y) (TDict kts)) as Hcopy.
      { apply (repr_in_dict _ y items').
        - apply map_lookup_filter_Some. rewrite Hkeys.
          split; [apply lookup_insert_eq | done].
        - eapply Forall2_impl; [exact Hr2 |]. intros v t' Hv.
          eapply repr_in_mono; [done | by apply above_mono]. }
      exists (VRef y), memo2, h3.
      split; [done |]. split; [done |]. split; [by etrans |].
      split.
      * intros l' y' t' Hl' Hnone Hr'.
        destruct (decide (l = l')) as [<-|Hne].
        -- assert (memo2 !! l = Some y) as E.
           { eapply lookup_weaken; [apply lookup_insert_eq | done]. }
           rewrite E in Hl'. injection Hl' as <-.
           by rewrite (repr_in_fun _ _ _ _ Hr' Hrepr).
        -- eapply repr_in_mono; [|by apply above_mono].
           eapply Hnew2; [done | | done].
           unfold memo1. by rewrite lookup_insert_ne.
      * apply (fill_ext h h2 y (ODict (zip (items.*1) items'))); [done | | done].
        destruct Hext2 as [[Hn _] _]. simpl in Hn. lia.
Qed.

(** ** Subscripts and iteration on objects that read back as trees *)
Lemma read_tree_str (n : nat) (m : gmap nat obj) (v : val) (s : string) :
  read_tree n m v = Some (TStr s) → v = VStr s.
Proof.
  intros H. destruct n, v as [s'|z| |l]; simpl in H; try congruence.
  destruct (m !! l) as [[?|?]|]; [| |done].
  - by apply fmap_Some in H as (? & _ & ?).
  - by apply fmap_Some in H as (? & _ & ?).
Qed.

Lemma repr_in_str (m : gmap nat obj) (v : val) (s : string) :
  repr_in m v (TStr s) → v = VStr s.
Proof. intros [n Hn]. by eapply read_tree_str. Qed.

Lemma assoc_read (n : nat) (m : gmap nat obj) (k : string)
    (items : list (string * val)) (kts : list (string * tree)) (t : tree) :
  mapM (λ kv, pair kv.1 <$> read_tree n m kv.2) items = Some kts →
  assoc k kts = Some t →
  ∃ v, assoc k items = Some v ∧ read_tree n m v = Some t.
Proof.
  intros H. apply mapM_Some in H.
  induction H as [|[k1 v1] [k2 t2] items kts Hkv _ IH]; simpl; [done |].
  apply fmap_Some in Hkv as (t' & Ht' & [= -> ->]). simpl in *.
  case_bool_decide; [|done]. intros [= ->]. by exists v1.
Qed.

Lemma subscript_read (n : nat) (h : Heap) (v : val) (k : string)
    (kts : list (string * tree)) (t : tree) :
  read_tree (S n) (objs h) v = Some (TDict kts) →
  assoc k kts = Some t →
  ∃ v', subscript v k h = (Val v', h) ∧ read_tree n (objs h) v' = Some t.
Proof.
  intros Hr Hk. destruct v as [s|z| |l]; simpl in Hr; try done.
  destruct (objs h !! l) as [[items|items]|] eqn:Hl; [| |done].
  - by apply fmap_Some in Hr as (? & _ & ?).
  - apply fmap_Some in Hr as (kts' & Hm & [= <-]).
    destruct (assoc_read _ _ _ _ _ _ Hm Hk) as (v' & Hv' & Hr').
    exists v'. split; [|done].
    unfold subscript. rewrite bind_unfold. unfold deref. rewrite Hl.
    by rewrite Hv'.
Qed.

Lemma subscript_repr (h : Heap) (v : val) (k : string)
    (kts : list (string * tree)) (t : tree) :
  repr_in (objs h) v (TDict kts) → assoc k kts = Some t →
  ∃ v', subscript v k h = (Val v', h) ∧ repr_in (objs h) v' t.
Proof.
  intros [[|n] Hn] Hk; [by destruct v |].
  destruct (subscript_read _ _ _ _ _ _ Hn Hk) as (v' & ? & ?).
  exists v'. split; [done | by exists n].
Qed.

Lemma iterate_read (n : nat) (h : Heap) (v : val) (ts : list tree) :
  read_tree (S n) (objs h) v = Some (TList ts) →
  ∃ vs, iterate v h = (Val vs, h) ∧
        Forall2 (λ v t, read_tree n (objs h) v = Some t) vs ts.
Proof.
  intros Hr. destruct v as [s|z| |l]; simpl in Hr; try done.
  destruct (objs h !! l) as [[items|items]|] eqn:Hl; [| |done].
  - apply fmap_Some in Hr as (ts' & Hm & [= <-]). apply mapM_Some in Hm.
    exists items. split; [|done].
    unfold iterate. rewrite bind_unfold. unfold deref. by rewrite Hl.
  - by apply fmap_Some in Hr as (? & _ & ?).
Qed.

Lemma iterate_repr (h : Heap) (v : val) (ts : list tree) :
  repr_in (objs h) v (TList ts) →
  ∃ vs, iterate v h = (Val vs, h) ∧ Forall2 (repr_in (objs h)) vs ts.
Proof.
  intros [[|n] Hn]; [by destruct v |].
  destruct (iterate_read _ _ _ _ Hn) as (vs & ? & Hvs).
  exists vs. split; [done |].
  eapply Forall2_impl; [exact Hvs |]. intros x y Hxy. by exists n.
Qed.

(** ** The two comprehensions of [process] *)
Lemma file_fields (h : Heap) (file : val) (t : tree) (f : File) :
  repr_in (objs h) file t → view_file t = Some f →
  subscript file "filename" h = (Val (VStr (filename f)), h) ∧
  subscript file "type" h = (Val (VStr (type f)), h).
Proof.
  intros Hr Hv. destruct t as [| | | |kts]; try done. simpl in Hv.
  destruct (assoc "filename" kts) as [[fn| | | |]|] eqn:Hfn; try done.
  destruct (assoc "type" kts) as [[ty| | | |]|] eqn:Hty; try done.
  injection Hv as <-. simpl.
  destruct (subscript_repr _ _ _ _ _ Hr Hfn) as (v1 & Hs1 & Hr1).
  destruct (subscript_repr _ _ _ _ _ Hr Hty) as (v2 & Hs2 & Hr2).
  apply repr_in_str in Hr1 as ->. apply repr_in_str in Hr2 as ->. done.
Qed.

Lemma names_of_files (h : Heap) (fl : list val) (ts : list tree)
    (fs : list File) :
  Forall2 (repr_in (objs h)) fl ts → mapM view_file ts = Some fs →
  for_each fl (λ file, name ← subscript file "filename"; mret [name]) h
  = (Val (map VStr (map filename fs)), h).
Proof.
  intros Hr Hv. apply mapM_Some in Hv. revert fs Hv.
  induction Hr as [|file t fl ts Hfile _ IH]; intros fs Hv;
    inversion Hv as [|? f ? fs' Hf Hfs]; subst; simpl; [done |].
  destruct (file_fields _ _ _ _ Hfile Hf) as [Hname _].
  rewrite !bind_unfold, Hname. simpl.
  rewrite bind_unfold, (IH _ Hfs). done.
Qed.

Lemma data_names_of_files (h : Heap) (fl : list val) (ts : list tree)
    (fs : list File) :
  Forall2 (repr_in (objs h)) fl ts → mapM view_file ts = Some fs →
  for_each fl (λ file,
    type ← subscript file "type";
    if eq_str type "data"
    then name ← subscript file "filename"; mret [name]
    else mret []) h
  = (Val (map VStr (map filename (List.filter is_data fs))), h).
Proof.
  intros Hr Hv. apply mapM_Some in Hv. revert fs Hv.
  induction Hr as [|file t fl ts Hfile _ IH]; intros fs Hv;
    inversion Hv as [|? f ? fs' Hf Hfs]; subst; simpl; [done |].
  destruct (file_fields _ _ _ _ Hfile Hf) as [Hname Htype].
  rewrite !bind_unfold, Htype. simpl. unfold is_data at 1.
  destruct (bool_decide (type f = "data")); simpl.
  - rewrite !bind_unfold, Hname. simpl. rewrite bind_unfold, (IH _ Hfs). done.
  - rewrite bind_unfold, (IH _ Hfs). done.
Qed.

Lemma names_of_granules (h : Heap) (body : val → M Heap (list val))
    (sel : list File → list string) (gl : list val) (ts : list tree)
    (gs : list Granule) :
  (∀ fl tfs fs, Forall2 (repr_in (objs h)) fl tfs →
                mapM view_file tfs = Some fs →
                for_each fl body h = (Val (map VStr (sel fs)), h)) →
  Forall2 (repr_in (objs h)) gl ts → mapM view_granule ts = Some gs →
  for_each gl (λ granule,
    fl ← subscript granule "files";
    fl ← iterate fl;
    for_each fl body) h
  = (Val (map VStr (flat_map (λ g, sel (files g)) gs)), h).
Proof.
  intros Hbody Hr Hv. apply mapM_Some in Hv. revert gs Hv.
  induction Hr as [|granule t gl ts Hg _ IH]; intros gs Hv;
    inversion Hv as [|? g ? gs' Hvg Hgs]; subst; simpl; [done |].
  destruct t as [| | | |kts]; try done. simpl in Hvg.
  destruct (assoc "files" kts) as [[| | |tfs|]|] eqn:Hfiles; try done.
  apply fmap_Some in Hvg as (fs & Hfs & ->). simpl.
  destruct (subscript_repr _ _ _ _ _ Hg Hfiles) as (vfl & Hsub & Hrfl).
  destruct (iterate_repr _ _ _ Hrfl) as (fl & Hit & Hrs).
  rewrite !bind_unfold, Hsub. simpl. rewrite bind_unfold, Hit. simpl.
  rewrite (Hbody _ _ _ Hrs Hfs), bind_unfold, (IH _ Hgs). simpl.
  by rewrite map_app.
Qed.

(** ** The handler's methods *)
Section MethodFacts.
Context {X : Type} `{!Library X}.
Implicit Types (w : World X) (p : string).

Lemma same_handler_refl w : same_handler w w.
Proof. by repeat split. Qed.

Lemma same_handler_trans w1 w2 w3 :
  same_handler w1 w2 → same_handler w2 w3 → same_handler w1 w3.
Proof. intros (?&?&?&?) (?&?&?&?). repeat split; congruence. Qed.

Lemma same_handler_eq w w' :
  same_handler w w' → w' = set_lib (fs w', ext w') w.
Proof.
  destruct w, w'. intros (?&?&?&?). simpl in *. by subst.
Qed.

Lemma on_fs_same {A} (m : M FS A) w : same_handler w (on_fs m w).2.
Proof.
  unfold on_fs, zoom. destruct (m (fs w)). by repeat split.
Qed.

Lemma on_lib_same {A} (m : M (FS * X) A) w : same_handler w (on_lib m w).2.
Proof.
  unfold on_lib, zoom. destruct (m (fs w, ext w)). by repeat split.
Qed.

Lemma set_fs_id w : set_fs (fs w) w = w.
Proof. by destruct w. Qed.

Lemma get_md5_sum_unfold p w :
  _get_md5_sum p w =
  match fs_files (fs w) !! p with
  | None => (Exc (FileNotFoundError p), w)
  | Some data =>
      if bool_decide (p ∈ faulty (fs w)) then (Exc (OSError p), w)
      else (Val (MD5.hexdigest data), w)
  end.
Proof.
  unfold _get_md5_sum, on_fs, zoom.
  destruct (fs_files (fs w) !! p) as [data|] eqn:Hp.
  - case_bool_decide as Hf.
    + unfold with_open, open, read. rewrite Hp. munfold. simpl.
      rewrite bool_decide_eq_true_2 by done.
      unfold set_open_files. simpl.
      rewrite bool_decide_eq_true_2 by done.
      by rewrite FS_eta, set_fs_id.
    + by rewrite (read_file_ok p data), set_fs_id.
  - unfold with_open, open. rewrite Hp. by rewrite set_fs_id.
Qed.

Lemma write_md5sum_file_unfold (f sum : string) w :
  _write_md5sum_file f sum w =
  if bool_decide (f ∈ unwritable (fs w)) then (Exc (PermissionError f), w)
  else if bool_decide (f ∈ faulty (fs w))
  then (Exc (OSError f), set_fs (set_files <[f := []]> (fs w)) w)
  else (Val tt, set_fs (set_files <[f := bytes_of_string sum]> (fs w)) w).
Proof.
  unfold _write_md5sum_file, on_fs, zoom.
  case_bool_decide as Hu.
  - unfold with_open, open. rewrite bool_decide_eq_true_2 by done.
    by rewrite set_fs_id.
  - case_bool_decide as Hf.
    + unfold with_open, open, write.
      rewrite bool_decide_eq_false_2 by done. simpl.
      rewrite bool_decide_eq_true_2 by done.
      unfold set_open_files, set_files. simpl.
      by rewrite bool_decide_eq_true_2 by done.
    + by rewrite write_file_ok.
Qed.

Lemma md5_key_eq (bucket stack name version p : string) :
  ("s3://" +:+ bucket +:+ "/staging/") +:+
  (stack +:+ "/" +:+ ((name +:+ "__") +:+ version) +:+ "/" +:+
   (os_path_split (p +:+ ".md5")).2)
  = remote_key bucket stack name version (os_path_split p).2.
Proof.
  unfold remote_key. rewrite split_md5.
  rewrite !append_assoc. reflexivity.
Qed.

Lemma add_ancillary_file_unfold p w :
  add_ancillary_file p w =
  match _get_md5_sum p w with
  | (Exc e, w1) => (Exc e, w1)
  | (Val sum, w1) =>
      match sidecar_key (self_config w) p with
      | None => (Exc (KeyError (missing_key (self_config w))), w1)
      | Some k =>
          (_write_md5sum_file (p +:+ ".md5") sum;;
           upload (p +:+ ".md5") k;;
           mret k) w1
      end
  end.
Proof.
  unfold add_ancillary_file. rewrite bind_unfold.
  change (gets self_config w) with (Val (self_config w), w).
  cbn beta iota. rewrite bind_unfold.
  destruct (_get_md5_sum p w) as [[sum|e] w1]; [|done].
  unfold sidecar_key, config_values, missing_key.
  destruct (self_config w) as [[[[n|] [v|]]|] [[[[[b|]]|]]|] [s|]];
    try reflexivity.
  repeat (cbn [collection buckets stack collection_name collection_version
               internal bucket_name key]; rewrite ret_bind; cbn beta).
  rewrite md5_key_eq. reflexivity.
Qed.
End MethodFacts.

Section SidecarFacts.
Context {X : Type} `{!Library X}.
Implicit Types (w : World X) (p : string).

(** [add_ancillary_file] returns exactly when it takes a sidecar step. *)
Lemma add_ancillary_file_val p w (k : string) w' :
  add_ancillary_file p w = (Val k, w') ↔
  sidecar_step (self_config w) (fs w, ext w) p k (fs w', ext w') ∧
  same_handler w w'.
Proof.
  rewrite add_ancillary_file_unfold, get_md5_sum_unfold.
  unfold sidecar_step. simpl. split.
  - destruct (fs_files (fs w) !! p) as [data|] eqn:Hp; [|done].
    case_bool_decide as Hf; [done |].
    destruct (sidecar_key (self_config w) p) as [k'|] eqn:Hk; [|done].
    rewrite bind_unfold, write_md5sum_file_unfold.
    case_bool_decide as Hu; [done |]. case_bool_decide as Hf'; [done |].
    rewrite bind_unfold. unfold upload, on_lib, zoom. simpl.
    destruct (lib_upload _ _ _) as [[[]|e] sx'] eqn:Hup; [|done].
    simpl. intros [= <- <-]. split; [|by destruct w].
    exists data. simpl. by destruct sx'.
  - intros [(data & Hp & Hf & Hk & Hu & Hf' & Hup) Hsame].
    rewrite Hp, bool_decide_eq_false_2, Hk by done.
    rewrite bind_unfold, write_md5sum_file_unfold.
    rewrite !bool_decide_eq_false_2 by done.
    rewrite bind_unfold. unfold upload, on_lib, zoom. simpl.
    unfold with_sidecar in Hup. rewrite Hup. simpl.
    by rewrite (same_handler_eq _ _ Hsame).
Qed.

Lemma add_ancillary_file_same p w :
  same_handler w (add_ancillary_file p w).2.
Proof.
  rewrite add_ancillary_file_unfold, get_md5_sum_unfold.
  destruct (fs_files (fs w) !! p) as [data|];
    [|apply same_handler_refl].
  case_bool_decide; [apply same_handler_refl |].
  destruct (sidecar_key _ _); [|apply same_handler_refl].
  rewrite bind_unfold.
  pose proof (on_fs_same (with_open (p +:+ ".md5") W
    (λ write_file, write write_file (MD5.hexdigest data))) w) as H1.
  change (on_fs _ w) with (_write_md5sum_file (p +:+ ".md5")
                             (MD5.hexdigest data) w) in H1.
  destruct (_write_md5sum_file _ _ w) as [[[]|e] w1]; [|done].
  rewrite bind_unfold. unfold upload.
  pose proof (on_lib_same (lib_upload (p +:+ ".md5") s) w1) as H2.
  destruct (on_lib _ w1) as [[[]|e] w2]; by eapply same_handler_trans.
Qed.

Lemma mapM_sidecars_val (ps : list string) :
  ∀ w (ks : list string) w',
    mapM add_ancillary_file ps w = (Val ks, w') ↔
    sidecar_run (self_config w) (fs w, ext w) ps ks (fs w', ext w') ∧
    same_handler w w'.
Proof.
  induction ps as [|p ps IH]; intros w ks w'; simpl.
  - split.
    + intros [= <- <-]. split; [constructor | apply same_handler_refl].
    + intros [Hrun Hsame]. inversion Hrun; subst.
      rewrite (same_handler_eq _ _ Hsame).
      replace (fs w') with (fs w) by congruence.
      replace (ext w') with (ext w) by congruence. by destruct w.
  - rewrite bind_unfold. split.
    + destruct (add_ancillary_file p w) as [[k|e] w1] eqn:Hp; [|done].
      apply add_ancillary_file_val in Hp as [Hstep Hsame1].
      rewrite bind_unfold.
      destruct (mapM add_ancillary_file ps w1) as [[ks'|e] w2] eqn:Hps;
        [|done].
      apply IH in Hps as [Hrun Hsame2]. intros [= <- <-].
      split; [|by eapply same_handler_trans].
      econstructor; [done |].
      replace (self_config w) with (self_config w1); [done |].
      by destruct Hsame1 as (_ & _ & ? & _).
    + intros [Hrun Hsame]. inversion Hrun as [|? ? k [s1 x1] ? ks' ? Hstep Hrun']; subst.
      assert (add_ancillary_file p w = (Val k, set_lib (s1, x1) w)) as ->.
      { apply add_ancillary_file_val. split; [by destruct w |].
        by destruct w. }
      rewrite bind_unfold.
      assert (mapM add_ancillary_file ps (set_lib (s1, x1) w)
              = (Val ks', w')) as ->.
      { apply IH. split; [by destruct w |]. by destruct w. }
      done.
Qed.

Lemma mapM_sidecars_same (ps : list string) :
  ∀ w, same_handler w (mapM add_ancillary_file ps w).2.
Proof.
  induction ps as [|p ps IH]; intros w; simpl.
  - apply same_handler_refl.
  - rewrite bind_unfold. pose proof (add_ancillary_file_same p w) as H1.
    destruct (add_ancillary_file p w) as [[k|e] w1]; [|done].
    rewrite bind_unfold. pose proof (IH w1) as H2.
    destruct (mapM add_ancillary_file ps w1) as [[ks|e] w2];
      by eapply same_handler_trans.
Qed.

(** The first sidecar that fails ends the batch. *)
Lemma mapM_sidecars_exc (pre post : list string) p :
  ∀ w (ks : list string) w1 (e : exn) w2,
    mapM add_ancillary_file pre w = (Val ks, w1) →
    add_ancillary_file p w1 = (Exc e, w2) →
    mapM add_ancillary_file (pre ++ p :: post) w = (Exc e, w2).
Proof.
  induction pre as [|q pre IH]; intros w ks w1 e w2 Hpre Hp; simpl in *.
  - injection Hpre as <- <-. by rewrite bind_unfold, Hp.
  - rewrite bind_unfold in *.
    destruct (add_ancillary_file q w) as [[k|e'] w0]; [|done].
    rewrite bind_unfold in *.
    destruct (mapM add_ancillary_file pre w0) as [[ks'|e'] w0'] eqn:Hpre';
      [|done].
    injection Hpre as <- <-.
    by rewrite (IH _ _ _ _ _ Hpre' Hp).
Qed.
End SidecarFacts.

(** ** [process] up to the call of [fetch] *)
Section ProcessFacts.
Context {X : Type} `{!Library X}.
Implicit Types (w : World X) (gs : list Granule).

Lemma on_heap_val {A} (m : M Heap A) w (a : A) (h' : Heap) :
  m (heap w) = (Val a, h') → on_heap m w = (Val a, set_heap h' w).
Proof. intros Hm. unfold on_heap, zoom. by rewrite Hm. Qed.

Lemma memo_ok_empty m0 b h d : memo_ok m0 b h ∅ d.
Proof. intros l y t Hl. by rewrite lookup_empty in Hl. Qed.

Lemma set_heap_id w : set_heap (heap w) w = w.
Proof. by destruct w. Qed.

Lemma fetch_list (k : string) (remote : bool) w (l : loc)
    (items : list val) :
  self_input w = VRef l → objs (heap w) !! l = Some (OList items) →
  fetch k remote w = on_lib (lib_fetch input_keys k remote items) w.
Proof.
  intros Hin Hl. unfold fetch. rewrite bind_unfold. unfold gets at 1.
  rewrite Hin, bind_unfold.
  rewrite (on_heap_val _ w items (heap w)), set_heap_id; [done |].
  unfold iterate. rewrite bind_unfold. unfold deref. by rewrite Hl.
Qed.

(** With a job payload in [self.input], [process] reaches [fetch] in a
    state where only fresh objects were added to the store and
    [self.input] is a fresh list of the data files' names; what it
    returns from there is decided by the library and the sidecars. *)
Lemma process_prelude w gs :
  job_input w gs →
  ∃ (h' : Heap) (l : loc),
    heap_ext (heap w) h' ∧
    next_loc (heap w) ≤ l ∧
    objs h' !! l = Some (OList (map VStr (data_file_names gs))) ∧
    process w =
    finish (map VStr (data_file_names gs)) (map VStr (all_file_names gs))
           (mkWorld h' (VRef l) (self_config w) (fs w) (ext w)
                    (recursion_limit w)).
Proof.
  intros (Hwf & t & Hread & Hview).
  destruct w as [h input cfg s x limit]. simpl in *.
  destruct t as [| | | |kts]; try done. simpl in Hview.
  destruct (assoc "granules" kts) as [[| | |tgs|]|] eqn:Hg; try done.
  destruct limit as [|n]; [by destruct input |].
  destruct (subscript_read _ _ _ _ _ _ Hread Hg) as (pg & Hsub & Hpg).
  destruct (deepcopy_correct (objs h) (next_loc h) n (S n) ltac:(lia)
              pg (TList tgs) ∅ h Hpg ltac:(done) Hwf ltac:(done)
              (memo_ok_empty _ _ _ _))
    as (granules & memo & h1 & Hcopy & Hrepr & _ & _ & Hext1).
  assert (heap_wf h1) as Hwf1 by by apply Hext1.
  assert (repr_in (objs h1) granules (TList tgs)) as Hrepr1.
  { eapply repr_in_mono; [done | apply map_filter_subseteq]. }
  destruct (iterate_repr _ _ _ Hrepr1) as (gl & Hit & Hgl).
  set (data := map VStr (data_file_names gs)).
  set (h2 := (alloc (OList data) h1).2).
  exists h2, (next_loc h1).
  split; [eapply heap_ext_trans; [done | apply alloc_ext] |].
  split; [destruct Hext1 as [[Hn _] _]; done |].
  split; [apply lookup_insert_eq |].
  unfold process. rewrite bind_unfold. simpl. rewrite bind_unfold. simpl.
  rewrite bind_unfold, (on_heap_val _ _ pg h) by done. simpl.
  rewrite bind_unfold, (on_heap_val _ _ (granules, memo) h1) by done. simpl.
  rewrite bind_unfold.
  erewrite on_heap_val; cycle 1.
  { simpl. rewrite bind_unfold, Hit.
    apply (names_of_granules h1 _ (map filename) gl tgs gs);
      [apply names_of_files | done | done]. }
  simpl. rewrite bind_unfold.
  erewrite on_heap_val; cycle 1.
  { simpl. rewrite bind_unfold, Hit.
    apply (names_of_granules h1 _ (λ fs, map filename (List.filter is_data fs))
                             gl tgs gs);
      [apply data_names_of_files | done | done]. }
  simpl. rewrite bind_unfold.
  rewrite (on_heap_val _ _ (next_loc h1) h2) by done. simpl.
  rewrite bind_unfold. simpl.
  unfold finish. rewrite !bind_unfold.
  erewrite fetch_list; [reflexivity | reflexivity | apply lookup_insert_eq].
Qed.
End ProcessFacts.

Section OutcomeFacts.
Context {X : Type} `{!Library X}.
Implicit Types (w : World X) (p : string) (gs : list Granule).

Lemma set_lib_id w : set_lib (fs w, ext w) w = w.
Proof. by destruct w. Qed.

Lemma add_ancillary_file_exc p w (e : exn) w' :
  add_ancillary_file p w = (Exc e, w') ↔
  sidecar_failure (self_config w) (fs w, ext w) p e (fs w', ext w') ∧
  same_handler w w'.
Proof.
  split.
  - intros Hrun. split;
      [|pose proof (add_ancillary_file_same p w) as Hs; by rewrite Hrun in Hs].
    revert Hrun.
    rewrite add_ancillary_file_unfold, get_md5_sum_unfold.
    unfold sidecar_failure. simpl.
    destruct (fs_files (fs w) !! p) as [data|]; [|by intros [= <- <-]].
    case_bool_decide; [by intros [= <- <-] |].
    destruct (sidecar_key (self_config w) p) as [k|]; [|by intros [= <- <-]].
    rewrite bind_unfold, write_md5sum_file_unfold.
    case_bool_decide; [by intros [= <- <-] |].
    case_bool_decide; [by intros [= <- <-] |].
    rewrite bind_unfold. unfold upload, on_lib, zoom. simpl.
    unfold with_sidecar.
    destruct (lib_upload _ _ _) as [[[]|e'] [s' x']]; [done |].
    by intros [= <- <-].
  - intros [Hfail Hsame]. rewrite (same_handler_eq _ _ Hsame).
    revert Hfail.
    rewrite add_ancillary_file_unfold, get_md5_sum_unfold.
    unfold sidecar_failure. simpl.
    destruct (fs_files (fs w) !! p) as [data|];
      [|intros [-> [= -> ->]]; by rewrite set_lib_id].
    case_bool_decide; [intros [-> [= -> ->]]; by rewrite set_lib_id |].
    destruct (sidecar_key (self_config w) p) as [k|];
      [|intros [-> [= -> ->]]; by rewrite set_lib_id].
    rewrite bind_unfold, write_md5sum_file_unfold.
    case_bool_decide; [intros [-> [= -> ->]]; by rewrite set_lib_id |].
    case_bool_decide; [intros [-> [= -> ->]]; by destruct w |].
    rewrite bind_unfold. unfold upload, on_lib, zoom. simpl.
    unfold with_sidecar. intros ->. by destruct w.
Qed.

Lemma mapM_sidecars_exc_inv (ps : list string) :
  ∀ w (e : exn) w',
    mapM add_ancillary_file ps w = (Exc e, w') →
    ∃ pre p post ks sx2,
      ps = pre ++ p :: post ∧
      sidecar_run (self_config w) (fs w, ext w) pre ks sx2 ∧
      sidecar_failure (self_config w) sx2 p e (fs w', ext w').
Proof.
  induction ps as [|p ps IH]; intros w e w'; simpl; [done |].
  rewrite bind_unfold.
  destruct (add_ancillary_file p w) as [[k|e'] w1] eqn:Hp.
  - rewrite bind_unfold.
    destruct (mapM add_ancillary_file ps w1) as [[ks|e''] w2] eqn:Hps;
      [done |].
    intros [= <- <-].
    apply add_ancillary_file_val in Hp as [Hstep (_ & _ & Hcfg & _)].
    destruct (IH _ _ _ Hps) as (pre & q & post & ks & sx2 & -> & Hrun & Hfail).
    rewrite Hcfg in Hrun, Hfail.
    exists (p :: pre), q, post, (k :: ks), sx2.
    split; [done |]. split; [by econstructor | done].
  - intros [= <- <-]. apply add_ancillary_file_exc in Hp as [Hfail _].
    exists [], p, ps, [], (fs w, ext w).
    split; [done |]. split; [constructor | done].
Qed.

Lemma finish_val (datas names : list val) w (out : list val) w' :
  finish datas names w = (Val out, w') ↔
  ∃ locals sx1 keys sx2,
    lib_fetch input_keys "hdf" false datas (fs w, ext w)
    = (Val locals, sx1) ∧
    sidecar_run (self_config w) sx1 locals keys sx2 ∧
    lib_clean_output sx2 = (Val tt, (fs w', ext w')) ∧
    out = map VStr keys ++ names ∧
    same_handler w w'.
Proof.
  unfold finish. rewrite bind_unfold. unfold on_lib at 1, zoom at 1.
  split.
  - destruct (lib_fetch _ _ _ _ _) as [[locals|e] sx1] eqn:Hf; [|done].
    rewrite bind_unfold.
    destruct (mapM add_ancillary_file locals (set_lib sx1 w))
      as [[keys|e] w2] eqn:Hm; [|done].
    apply mapM_sidecars_val in Hm as [Hrun Hsame2].
    rewrite bind_unfold. unfold clean_output, on_lib, zoom.
    destruct (lib_clean_output (fs w2, ext w2)) as [[[]|e] sx3] eqn:Hc;
      [|done].
    intros [= <- <-]. exists locals, sx1, keys, (fs w2, ext w2).
    destruct sx1 as [s1 x1], sx3 as [s3 x3]. simpl in *.
    split; [done |]. split; [done |]. split; [done |]. split; [done |].
    destruct Hsame2 as (?&?&?&?). by repeat split.
  - intros (locals & sx1 & keys & sx2 & Hf & Hrun & Hc & -> & Hsame).
    rewrite Hf, bind_unfold.
    assert (mapM add_ancillary_file locals (set_lib sx1 w)
            = (Val keys, set_lib sx2 w)) as ->.
    { apply mapM_sidecars_val. destruct sx1, sx2.
      split; [done | by repeat split]. }
    rewrite bind_unfold. unfold clean_output, on_lib, zoom.
    destruct sx2 as [s2 x2]. simpl. rewrite Hc. simpl.
    rewrite (same_handler_eq _ _ Hsame). by destruct w.
Qed.

Lemma finish_exc (datas names : list val) w (e : exn) w' :
  finish datas names w = (Exc e, w') ↔
  batch_failure (self_config w) datas (fs w, ext w) e (fs w', ext w') ∧
  same_handler w w'.
Proof.
  unfold finish, batch_failure. rewrite bind_unfold.
  unfold on_lib at 1, zoom at 1. split.
  - destruct (lib_fetch _ _ _ _ _) as [[locals|e0] sx1] eqn:Hf.
    + rewrite bind_unfold.
      destruct (mapM add_ancillary_file locals (set_lib sx1 w))
        as [[keys|e1] w2] eqn:Hm.
      * apply mapM_sidecars_val in Hm as [Hrun Hsame2].
        rewrite bind_unfold. unfold clean_output, on_lib, zoom.
        destruct (lib_clean_output (fs w2, ext w2)) as [[[]|e2] sx3] eqn:Hc;
          [done |].
        intros [= <- <-]. split.
        -- right. right. exists locals, sx1, keys, (fs w2, ext w2).
           destruct sx1, sx3. by simpl in *.
        -- destruct Hsame2 as (?&?&?&?). by repeat split.
      * intros [= <- <-].
        pose proof (mapM_sidecars_same locals (set_lib sx1 w)) as Hs.
        rewrite Hm in Hs. simpl in Hs.
        apply mapM_sidecars_exc_inv in Hm
          as (pre & p & post & ks & sx2 & -> & Hrun & Hfail).
        split.
        -- right. left. exists pre, p, post, sx1, ks, sx2.
           by destruct sx1.
        -- destruct Hs as (?&?&?&?). by repeat split.
    + intros [= <- <-]. split; [left; by destruct sx1 | by repeat split].
  - intros [Hfail Hsame]. rewrite (same_handler_eq _ _ Hsame).
    destruct Hfail as [Hf|[(pre & p & post & sx1 & ks & sx2 & Hf & Hrun & Hfail)
                          |(locals & sx1 & ks & sx2 & Hf & Hrun & Hc)]].
    + rewrite Hf. by destruct w.
    + rewrite Hf, bind_unfold.
      erewrite (mapM_sidecars_exc pre post p (set_lib sx1 w) ks
                  (set_lib sx2 w) e (set_lib (fs w', ext w') w));
        [by destruct w | |].
      * apply mapM_sidecars_val. destruct sx1, sx2.
        split; [done | by repeat split].
      * apply add_ancillary_file_exc. destruct sx2.
        split; [done | by repeat split].
    + rewrite Hf, bind_unfold.
      assert (mapM add_ancillary_file locals (set_lib sx1 w)
              = (Val ks, set_lib sx2 w)) as ->.
      { apply mapM_sidecars_val. destruct sx1, sx2.
        split; [done | by repeat split]. }
      rewrite bind_unfold. unfold clean_output, on_lib, zoom.
      destruct sx2 as [s2 x2]. simpl. rewrite Hc. by destruct w.
Qed.
End OutcomeFacts.

(** ** What [process] does to the store, whatever it returns *)
Section StoreFacts.
Context {X : Type} `{!Library X}.
Implicit Types (w : World X).

Lemma heap_only_ret {A} (a : A) : heap_only (mret a).
Proof. intros h. apply heap_ext_refl. Qed.

Lemma heap_only_raise {A} (e : exn) : heap_only (raise (A := A) e).
Proof. intros h. apply heap_ext_refl. Qed.

Lemma heap_only_bind {A B} (m : M Heap A) (k : A → M Heap B) :
  heap_only m → (∀ a, heap_only (k a)) → heap_only (m ≫= k).
Proof.
  intros Hm Hk h. rewrite bind_unfold. specialize (Hm h).
  destruct (m h) as [[a|e] h1]; [|done].
  eapply heap_ext_trans; [exact Hm | apply Hk].
Qed.

Lemma heap_only_deref (l : loc) : heap_only (deref l).
Proof. intros h. rewrite deref_state. apply heap_ext_refl. Qed.

Lemma heap_only_subscript (x : val) (k : string) : heap_only (subscript x k).
Proof.
  destruct x; try apply heap_only_raise.
  apply heap_only_bind; [apply heap_only_deref |].
  intros [items|items]; [apply heap_only_raise |].
  unfold key. destruct (assoc k items);
    [apply heap_only_ret | apply heap_only_raise].
Qed.

Lemma heap_only_iterate (x : val) : heap_only (iterate x).
Proof.
  destruct x; try apply heap_only_raise; try apply heap_only_ret.
  apply heap_only_bind; [apply heap_only_deref |].
  intros [items|items]; apply heap_only_ret.
Qed.

Lemma heap_only_for_each {A B} (xs : list A) (body : A → M Heap (list B)) :
  (∀ a, heap_only (body a)) → heap_only (for_each xs body).
Proof.
  intros Hbody. induction xs as [|a xs IH]; simpl; [apply heap_only_ret |].
  apply heap_only_bind; [done |]. intros ys.
  apply heap_only_bind; [done |]. intros zs. apply heap_only_ret.
Qed.

Lemma heap_grows_bind {A B} (m : M (World X) A) (k : A → M (World X) B) :
  heap_grows m → (∀ a, heap_grows (k a)) → heap_grows (m ≫= k).
Proof.
  intros Hm Hk w. rewrite bind_unfold. specialize (Hm w).
  destruct (m w) as [[a|e] w1]; [|done].
  eapply heap_ext_trans; [exact Hm | apply Hk].
Qed.

Lemma heap_grows_on_heap {A} (m : M Heap A) :
  heap_only m → heap_grows (X := X) (on_heap m).
Proof.
  intros Hm w. unfold on_heap, zoom. specialize (Hm (heap w)).
  by destruct (m (heap w)).
Qed.

Lemma heap_grows_keeps {A} (m : M (World X) A) :
  keeps_handler m → heap_grows m.
Proof.
  intros Hm w. destruct (Hm w) as (-> & _). apply heap_ext_refl.
Qed.

Lemma keeps_bind {A B} (m : M (World X) A) (k : A → M (World X) B) :
  keeps_handler m → (∀ a, keeps_handler (k a)) → keeps_handler (m ≫= k).
Proof.
  intros Hm Hk w. rewrite bind_unfold. specialize (Hm w).
  destruct (m w) as [[a|e] w1]; [|done].
  eapply same_handler_trans; [exact Hm | apply Hk].
Qed.

Lemma finish_keeps (datas names : list val) :
  keeps_handler (finish datas names).
Proof.
  intros w. destruct (finish datas names w) as [[out|e] w'] eqn:Hf.
  - by apply finish_val in Hf as (? & ? & ? & ? & _ & _ & _ & _ & ?).
  - by apply finish_exc in Hf as [_ ?].
Qed.

Lemma keeps_fetch (k : string) (remote : bool) : keeps_handler (fetch k remote).
Proof.
  intros w. unfold fetch. rewrite bind_unfold. simpl. rewrite bind_unfold.
  unfold on_heap, zoom.
  pose proof (heap_only_iterate (self_input w) (heap w)) as Hit.
  assert ((iterate (self_input w) (heap w)).2 = heap w) as Hst.
  { destruct (self_input w); try done. simpl. rewrite bind_unfold.
    pose proof (deref_state l (heap w)).
    destruct (deref l (heap w)) as [[[?|?]|?] ?]; simpl in *; by subst. }
  destruct (iterate (self_input w) (heap w)) as [[items|e] h1];
    simpl in Hst; subst h1; rewrite set_heap_id.
  - apply on_lib_same.
  - apply same_handler_refl.
Qed.

(** Objects that exist when [process] is called are never written to. *)
Lemma process_heap_grows : heap_grows (process (X := X)).
Proof.
  unfold process.
  apply heap_grows_bind; [by intros w; apply heap_ext_refl |]. intros input.
  apply heap_grows_bind; [by intros w; apply heap_ext_refl |]. intros limit.
  apply heap_grows_bind;
    [apply heap_grows_on_heap, heap_only_subscript |]. intros pg.
  apply heap_grows_bind;
    [apply heap_grows_on_heap; intros h; apply deepcopy_ext |].
  intros [granules memo].
  apply heap_grows_bind.
  { apply heap_grows_on_heap, heap_only_bind; [apply heap_only_iterate |].
    intros gl. apply heap_only_for_each. intros g.
    apply heap_only_bind; [apply heap_only_subscript |]. intros fl.
    apply heap_only_bind; [apply heap_only_iterate |]. intros fl'.
    apply heap_only_for_each. intros f.
    apply heap_only_bind; [apply heap_only_subscript |]. intros name.
    apply heap_only_ret. }
  intros names.
  apply heap_grows_bind.
  { apply heap_grows_on_heap, heap_only_bind; [apply heap_only_iterate |].
    intros gl. apply heap_only_for_each. intros g.
    apply heap_only_bind; [apply heap_only_subscript |]. intros fl.
    apply heap_only_bind; [apply heap_only_iterate |]. intros fl'.
    apply heap_only_for_each. intros f.
    apply heap_only_bind; [apply heap_only_subscript |]. intros ty.
    destruct (eq_str ty "data"); [|apply heap_only_ret].
    apply heap_only_bind; [apply heap_only_subscript |]. intros name.
    apply heap_only_ret. }
  intros datas.
  apply heap_grows_bind;
    [apply heap_grows_on_heap; intros h; apply alloc_ext |]. intros l.
  apply heap_grows_bind; [by intros w; apply heap_ext_refl |]. intros _.
  apply heap_grows_keeps.
  apply keeps_bind; [apply keeps_fetch |]. intros locals.
  apply keeps_bind; [intros w; apply mapM_sidecars_same |]. intros keys.
  apply keeps_bind; [intros w; apply on_lib_same |]. intros _.
  intros w. apply same_handler_refl.
Qed.
End StoreFacts.

(** * The behaviour of [process] on a job payload *)
Section ProcessOutcome.
Context {X : Type} `{!Library X}.
Implicit Types (w : World X) (gs : list Granule).

Lemma sidecar_run_keys (cfg : Config) (sx sx' : FS * X)
    (ps ks : list string) :
  sidecar_run cfg sx ps ks sx' →
  Forall2 (λ p k, sidecar_key cfg p = Some k) ps ks.
Proof.
  induction 1 as [|sx p k sx1 ps ks sx2 (data & _ & _ & Hk & _) _ IH];
    by constructor.
Qed.

Lemma process_end w gs (r : outcome (list val)) (w' : World X) :
  job_input w gs → process w = (r, w') → narrowed w gs w'.
Proof.
  intros Hjob.
  destruct (process_prelude w gs Hjob) as (h' & l & Hext & Hl & Hobj & ->).
  intros Hrun.
  pose proof (finish_keeps (map VStr (data_file_names gs))
                (map VStr (all_file_names gs))
                (mkWorld h' (VRef l) (self_config w) (fs w) (ext w)
                         (recursion_limit w))) as Hsame.
  rewrite Hrun in Hsame. destruct Hsame as (Hh & Hi & Hc & Hlim).
  simpl in *. unfold narrowed. rewrite Hh, Hi.
  repeat (split; [done |]). by exists l.
Qed.

Lemma process_val_elim w gs (out : list val) (w' : World X) :
  job_input w gs → process w = (Val out, w') →
  ∃ locals sx1 keys sx2,
    lib_fetch input_keys "hdf" false (map VStr (data_file_names gs))
              (fs w, ext w) = (Val locals, sx1) ∧
    sidecar_run (self_config w) sx1 locals keys sx2 ∧
    lib_clean_output sx2 = (Val tt, (fs w', ext w')) ∧
    out = map VStr keys ++ map VStr (all_file_names gs).
Proof.
  intros Hjob.
  destruct (process_prelude w gs Hjob) as (h' & l & Hext & Hl & Hobj & ->).
  intros (locals & sx1 & keys & sx2 & Hf & Hrun & Hc & -> & _)%finish_val.
  by exists locals, sx1, keys, sx2.
Qed.

Lemma process_val_intro w gs (locals keys : list string)
    (sx1 sx2 sx3 : FS * X) :
  job_input w gs →
  lib_fetch input_keys "hdf" false (map VStr (data_file_names gs))
            (fs w, ext w) = (Val locals, sx1) →
  sidecar_run (self_config w) sx1 locals keys sx2 →
  lib_clean_output sx2 = (Val tt, sx3) →
  ∃ w', process w
        = (Val (map VStr keys ++ map VStr (all_file_names gs)), w') ∧
        (fs w', ext w') = sx3.
Proof.
  intros Hjob Hf Hrun Hc.
  destruct (process_prelude w gs Hjob) as (h' & l & Hext & Hl & Hobj & ->).
  eexists (mkWorld h' (VRef l) (self_config w) sx3.1 sx3.2
                   (recursion_limit w)).
  split; [|by destruct sx3].
  apply finish_val. exists locals, sx1, keys, sx2. simpl.
  destruct sx3. by repeat split.
Qed.

Lemma process_exc_elim w gs (e : exn) (w' : World X) :
  job_input w gs → process w = (Exc e, w') →
  batch_failure (self_config w) (map VStr (data_file_names gs))
                (fs w, ext w) e (fs w', ext w').
Proof.
  intros Hjob.
  destruct (process_prelude w gs Hjob) as (h' & l & Hext & Hl & Hobj & ->).
  by intros [Hfail _]%finish_exc.
Qed.

Lemma process_exc_intro w gs (e : exn) (sx' : FS * X) :
  job_input w gs →
  batch_failure (self_config w) (map VStr (data_file_names gs))
                (fs w, ext w) e sx' →
  ∃ w', process w = (Exc e, w') ∧ (fs w', ext w') = sx'.
Proof.
  intros Hjob Hfail.
  destruct (process_prelude w gs Hjob) as (h' & l & Hext & Hl & Hobj & ->).
  eexists (mkWorld h' (VRef l) (self_config w) sx'.1 sx'.2
                   (recursion_limit w)).
  split; [|by destruct sx'].
  apply finish_exc. simpl. destruct sx'. by repeat split.
Qed.
End ProcessOutcome.

Section RunFacts.
Context {X : Type} `{!Library X}.
Implicit Types (w : World X) (gs : list Granule).

Lemma sidecar_step_fun (cfg : Config) (sx : FS * X) (p k1 k2 : string)
    (sx1 sx2 : FS * X) :
  sidecar_step cfg sx p k1 sx1 → sidecar_step cfg sx p k2 sx2 →
  k1 = k2 ∧ sx1 = sx2.
Proof.
  intros (d1 & Hd1 & _ & Hk1 & _ & _ & Hu1) (d2 & Hd2 & _ & Hk2 & _ & _ & Hu2).
  assert (d1 = d2) as -> by congruence.
  assert (k1 = k2) as -> by congruence.
  split; [done | congruence].
Qed.

(** From one state, a list of local files has one run of sidecars. *)
Lemma sidecar_run_fun (cfg : Config) (ps : list string) :
  ∀ (sx : FS * X) ks1 ks2 sx1 sx2,
    sidecar_run cfg sx ps ks1 sx1 → sidecar_run cfg sx ps ks2 sx2 →
    ks1 = ks2 ∧ sx1 = sx2.
Proof.
  induction ps as [|p ps IH]; intros sx ks1 ks2 sx1 sx2 H1 H2;
    inversion H1; inversion H2; subst; [done |].
  match goal with
  | Ha : sidecar_step _ _ _ ?k ?s, Hb : sidecar_step _ _ _ ?k' ?s' |- _ =>
      destruct (sidecar_step_fun _ _ _ _ _ _ _ Ha Hb) as [-> ->]
  end.
  match goal with
  | Ha : sidecar_run _ ?s _ ?k _, Hb : sidecar_run _ ?s _ ?k' _ |- _ =>
      destruct (IH _ _ _ _ _ Ha Hb) as [-> ->]
  end.
  done.
Qed.

Lemma sidecar_run_length (cfg : Config) (sx sx' : FS * X)
    (ps ks : list string) :
  sidecar_run cfg sx ps ks sx' → length ks = length ps.
Proof. induction 1; simpl; congruence. Qed.

(** The sidecar of the [i]-th local file is made in the state the first
    [i] sidecars leave. *)
Lemma sidecar_run_lookup (cfg : Config) (sx sx' : FS * X)
    (ps ks : list string) (i : nat) (p : string) :
  sidecar_run cfg sx ps ks sx' → ps !! i = Some p →
  ∃ k sxi sxi',
    ks !! i = Some k ∧
    sidecar_run cfg sx (take i ps) (take i ks) sxi ∧
    sidecar_step cfg sxi p k sxi'.
Proof.
  intros Hrun. revert i.
  induction Hrun as [|sx q k sx1 ps ks sx2 Hstep Hrun IH]; intros i Hi;
    [done |].
  destruct i as [|i]; simpl in *.
  - injection Hi as ->. exists k, sx, sx1.
    split; [done |]. split; [constructor | done].
  - destruct (IH i Hi) as (k' & sxi & sxi' & Hk & Hpre & Hs).
    exists k', sxi, sxi'. split; [done |]. split; [|done].
    by econstructor.
Qed.

(** A second call finds a list where the first found the payload. *)
Lemma process_again w (l : loc) (items : list val) :
  self_input w = VRef l → objs (heap w) !! l = Some (OList items) →
  process w = (Exc TypeError, w).
Proof.
  intros Hin Hl. unfold process. rewrite bind_unfold. unfold gets at 1.
  rewrite bind_unfold. unfold gets at 1. rewrite bind_unfold.
  unfold on_heap at 1, zoom at 1. rewrite Hin. unfold subscript.
  rewrite bind_unfold. unfold deref. rewrite Hl. simpl.
  by rewrite set_heap_id.
Qed.

Lemma job_input_ref w gs :
  job_input w gs →
  ∃ l, self_input w = VRef l ∧ l < next_loc (heap w).
Proof.
  intros (Hwf & t & Hread & Hview).
  destruct t as [| | | |kts]; try done.
  destruct (self_input w) as [s|z| |l]; try (by destruct (recursion_limit w)).
  exists l. split; [done |].
  destruct (recursion_limit w); [done |]. simpl in Hread.
  destruct (objs (heap w) !! l) as [o|] eqn:Hl; [|done].
  by eapply heap_wf_lookup.
Qed.
End RunFacts.

(** * The specified properties *)
Import MemoryLibrary.

Lemma example_job_input : job_input Example.world Example.granules.
Proof.
  split; [unfold heap_wf; by_compute |].
  eexists. split; [vm_compute; reflexivity | vm_compute; reflexivity].
Defined.

Lemma example_local_job_input :
  job_input Example.local_world Example.granules.
Proof.
  split; [unfold heap_wf; by_compute |].
  eexists. split; [vm_compute; reflexivity | vm_compute; reflexivity].
Defined.

Section Claims.
  Context {X : Type} `{!Library X}.
  Implicit Types (w : World X) (gs : list Granule).

(** C1. With a job payload in [self.input], [process] returns the sidecar
    keys, one for each local file [fetch] returned and in that order,
    followed by the filename of every file of every granule in iteration
    order. It returns this list whenever [fetch], the sidecars and the
    cleanup return, and whatever it returns is such a list. *)
Theorem process_returns_keys_then_filenames w gs :
  job_input w gs →
  (∀ locals sx1 keys sx2 sx3,
      lib_fetch input_keys "hdf" false (map VStr (data_file_names gs))
                (fs w, ext w) = (Val locals, sx1) →
      sidecar_run (self_config w) sx1 locals keys sx2 →
      lib_clean_output sx2 = (Val tt, sx3) →
      ∃ w', process w
            = (Val (map VStr keys ++ map VStr (all_file_names gs)), w')) ∧
  (∀ out w',
      process w = (Val out, w') →
      ∃ locals sx1 keys,
        lib_fetch input_keys "hdf" false (map VStr (data_file_names gs))
                  (fs w, ext w) = (Val locals, sx1) ∧
        Forall2 (λ p k, sidecar_key (self_config w) p = Some k) locals keys ∧
        out = map VStr keys ++ map VStr (all_file_names gs)).
Proof.
  intros Hjob. split.
  - intros locals sx1 keys sx2 sx3 Hf Hrun Hc.
    destruct (process_val_intro w gs locals keys sx1 sx2 sx3 Hjob Hf Hrun Hc)
      as (w' & Hp & _).
    by exists w'.
  - intros out w' Hp.
    destruct (process_val_elim w gs out w' Hjob Hp)
      as (locals & sx1 & keys & sx2 & Hf & Hrun & _ & ->).
    exists locals, sx1, keys. split; [done |]. split; [|done].
    by eapply sidecar_run_keys.
Qed.

(** C2. In a run of [process] that returns, each local path [fetch]
    resolved gets exactly one sidecar key, at its own position of the
    output. When its turn came the file was readable, and the sidecar
    handed to [upload] held the hexadecimal MD5 digest of the bytes the
    file had then. And a readable file does get its sidecar:
    [add_ancillary_file] returns the key when the configuration is
    complete, the sidecar can be written and [upload] returns. The local
    paths are those [fetch] resolves under the key ['hdf'], whose pattern
    is [^.*\.hdf$]. *)
Theorem one_sidecar_per_local_file w gs :
  job_input w gs →
  (∀ out w',
      process w = (Val out, w') →
      ∃ locals sx1 keys sx2,
        lib_fetch input_keys "hdf" false (map VStr (data_file_names gs))
                  (fs w, ext w) = (Val locals, sx1) ∧
        out = map VStr keys ++ map VStr (all_file_names gs) ∧
        length keys = length locals ∧
        sidecar_run (self_config w) sx1 locals keys sx2 ∧
        ∀ i p, locals !! i = Some p →
          ∃ k sxi data sxi',
            out !! i = Some (VStr k) ∧
            sidecar_run (self_config w) sx1 (take i locals) (take i keys) sxi ∧
            fs_files sxi.1 !! p = Some data ∧
            sidecar_key (self_config w) p = Some k ∧
            fs_files (with_sidecar p data sxi.1) !! (p +:+ ".md5")
            = Some (bytes_of_string (MD5.hexdigest data)) ∧
            lib_upload (p +:+ ".md5") k (with_sidecar p data sxi.1, sxi.2)
            = (Val tt, sxi')) ∧
  (∀ p data k sx',
      fs_files (fs w) !! p = Some data →
      p ∉ faulty (fs w) →
      sidecar_key (self_config w) p = Some k →
      p +:+ ".md5" ∉ unwritable (fs w) →
      p +:+ ".md5" ∉ faulty (fs w) →
      lib_upload (p +:+ ".md5") k (with_sidecar p data (fs w), ext w)
      = (Val tt, sx') →
      add_ancillary_file p w = (Val k, set_lib sx' w)) ∧
  assoc "hdf" input_keys = Some "^.*\.hdf$".
Proof.
  intros Hjob. split; [|split; [|reflexivity]].
  - intros out w' Hp.
    destruct (process_val_elim w gs out w' Hjob Hp)
      as (locals & sx1 & keys & sx2 & Hf & Hrun & _ & ->).
    exists locals, sx1, keys, sx2.
    pose proof (sidecar_run_length _ _ _ _ _ Hrun) as Hlen.
    repeat (split; [done |]).
    intros i p Hi.
    destruct (sidecar_run_lookup _ _ _ _ _ i p Hrun Hi)
      as (k & sxi & sxi' & Hk & Hpre & data & Hd & _ & Hkey & _ & _ & Hup).
    exists k, sxi, data, sxi'.
    split.
    { rewrite lookup_app_l by (rewrite length_map; by eapply lookup_lt_Some).
      by rewrite list_lookup_fmap, Hk. }
    repeat (split; [done |]).
    split; [|done]. unfold with_sidecar, set_files. simpl.
    apply lookup_insert_eq.
  - intros p data k sx' Hd Hf Hk Hu Hf' Hup.
    apply add_ancillary_file_val. destruct sx' as [s' x']. simpl.
    split; [|by destruct w].
    exists data. by repeat split.
Qed.

(** C3. The key [add_ancillary_file] returns is
    [s3://{bucket}/staging/{stack}/{name}__{version}/{local_filename}.md5],
    where [local_filename] is the last component of the local path. Two
    calls with the same five strings return the same key, whatever else
    differs; and the call returns this key whenever the file can be read,
    the sidecar can be written and [upload] returns. *)
Theorem remote_key_is_formatted :
  (∀ w p k w',
      add_ancillary_file p w = (Val k, w') →
      ∃ bucket stack name version,
        config_values (self_config w) = Some (bucket, stack, name, version) ∧
        k = "s3://" +:+ bucket +:+ "/staging/" +:+ stack +:+ "/" +:+
            name +:+ "__" +:+ version +:+ "/" +:+
            (os_path_split p).2 +:+ ".md5") ∧
  (∀ w1 w2 p1 p2 k1 k2 w1' w2',
      config_values (self_config w1) = config_values (self_config w2) →
      (os_path_split p1).2 = (os_path_split p2).2 →
      add_ancillary_file p1 w1 = (Val k1, w1') →
      add_ancillary_file p2 w2 = (Val k2, w2') →
      k1 = k2) ∧
  (∀ w p data bucket stack name version sx',
      config_values (self_config w) = Some (bucket, stack, name, version) →
      fs_files (fs w) !! p = Some data →
      p ∉ faulty (fs w) →
      p +:+ ".md5" ∉ unwritable (fs w) →
      p +:+ ".md5" ∉ faulty (fs w) →
      lib_upload (p +:+ ".md5")
                 (remote_key bucket stack name version (os_path_split p).2)
                 (with_sidecar p data (fs w), ext w) = (Val tt, sx') →
      add_ancillary_file p w
      = (Val ("s3://" +:+ bucket +:+ "/staging/" +:+ stack +:+ "/" +:+
              name +:+ "__" +:+ version +:+ "/" +:+
              (os_path_split p).2 +:+ ".md5"),
         set_lib sx' w)).
Proof.
  assert (Hkey : ∀ w p k w',
    add_ancillary_file p w = (Val k, w') →
    ∃ bucket stack name version,
      config_values (self_config w) = Some (bucket, stack, name, version) ∧
      k = remote_key bucket stack name version (os_path_split p).2).
  { intros w p k w' [(data & _ & _ & Hk & _) _]%add_ancillary_file_val.
    unfold sidecar_key in Hk.
    destruct (config_values (self_config w)) as [[[[b s] n] v]|]; [|done].
    injection Hk as <-. by exists b, s, n, v. }
  split; [exact Hkey |]. split.
  - intros w1 w2 p1 p2 k1 k2 w1' w2' Hcfg Hp H1 H2.
    destruct (Hkey _ _ _ _ H1) as (b1 & s1 & n1 & v1 & Hc1 & ->).
    destruct (Hkey _ _ _ _ H2) as (b2 & s2 & n2 & v2 & Hc2 & ->).
    rewrite Hcfg, Hc2 in Hc1. injection Hc1 as <- <- <- <-.
    by rewrite Hp.
  - intros w p data b s n v sx' Hcfg Hd Hf Hu Hf' Hup.
    apply add_ancillary_file_val. destruct sx' as [s' x']. simpl.
    split; [|by destruct w].
    exists data. unfold sidecar_key. rewrite Hcfg. by repeat split.
Qed.

(** C4. For a local file that can be read, [_get_md5_sum] returns the
    MD5 digest of its bytes as 32 lowercase hexadecimal digits (the 16
    bytes, 128 bits, of the digest), and after [_write_md5sum_file] the
    file [<local_file>.md5] holds exactly these 32 characters; for the
    bytes [b"test"] they are [098f6bcd4621d373cade4e832627b4f6]. *)
Theorem sidecar_holds_the_hex_digest w (local_file : string)
    (data : list byte) :
  fs_files (fs w) !! local_file = Some data →
  local_file ∉ faulty (fs w) →
  local_file +:+ ".md5" ∉ unwritable (fs w) →
  local_file +:+ ".md5" ∉ faulty (fs w) →
  ∃ md5_sum w',
    _get_md5_sum local_file w = (Val md5_sum, w) ∧
    _write_md5sum_file (local_file +:+ ".md5") md5_sum w = (Val tt, w') ∧
    fs_files (fs w') !! (local_file +:+ ".md5")
    = Some (bytes_of_string md5_sum) ∧
    md5_sum = MD5.hexdigest data ∧
    length (MD5.digest data) = 16 ∧
    String.length md5_sum = 32 ∧
    Forall (λ c, lower_hex c = true) (list_ascii_of_string md5_sum) ∧
    (data = bytes_of_string "test" →
     md5_sum = "098f6bcd4621d373cade4e832627b4f6").
Proof.
  intros Hd Hf Hu Hf'.
  exists (MD5.hexdigest data),
         (set_fs (set_files <[local_file +:+ ".md5" :=
                              bytes_of_string (MD5.hexdigest data)]> (fs w)) w).
  split.
  { rewrite get_md5_sum_unfold, Hd. by rewrite bool_decide_eq_false_2. }
  split.
  { rewrite write_md5sum_file_unfold. by rewrite !bool_decide_eq_false_2. }
  split; [apply lookup_insert_eq |]. split; [done |].
  split; [apply digest_length |]. split; [apply hexdigest_length |].
  split; [apply hexdigest_lower_hex |].
  intros ->. vm_compute. reflexivity.
Qed.

(** C5. A file whose type is not ["data"] is left out of the list handed
    to [fetch], which holds the filenames of the data files only, and the
    sidecar keys come from what [fetch] returns for that list: two jobs
    with the same data files get the same keys. The filename of every
    file, of whatever type, is in the list [process] returns. *)
Theorem other_files_give_no_sidecar w gs out w' :
  job_input w gs →
  process w = (Val out, w') →
  (∃ locals sx1 keys,
      lib_fetch input_keys "hdf" false (map VStr (data_file_names gs))
                (fs w, ext w) = (Val locals, sx1) ∧
      length keys = length locals ∧
      out = map VStr keys ++ map VStr (all_file_names gs)) ∧
  (∀ name, name ∈ data_file_names gs ↔
           ∃ g f, g ∈ gs ∧ f ∈ files g ∧ type f = "data" ∧
                  filename f = name) ∧
  (∀ g f, g ∈ gs → f ∈ files g → VStr (filename f) ∈ out) ∧
  (∀ w2 gs2 out2 w2',
      job_input w2 gs2 →
      fs w2 = fs w → ext w2 = ext w → self_config w2 = self_config w →
      data_file_names gs2 = data_file_names gs →
      process w2 = (Val out2, w2') →
      ∃ keys, out = map VStr keys ++ map VStr (all_file_names gs) ∧
              out2 = map VStr keys ++ map VStr (all_file_names gs2)).
Proof.
  intros Hjob Hp.
  destruct (process_val_elim w gs out w' Hjob Hp)
    as (locals & sx1 & keys & sx2 & Hf & Hrun & _ & ->).
  split.
  { exists locals, sx1, keys. split; [done |].
    split; [by eapply sidecar_run_length | done]. }
  split.
  { intros name. unfold data_file_names. rewrite list_elem_of_In, in_flat_map.
    split.
    - intros (g & Hg & Hin). apply in_map_iff in Hin as (f & <- & Hin).
      apply filter_In in Hin as [Hin Hdata].
      exists g, f. rewrite !list_elem_of_In.
      repeat (split; [done |]). split; [|done].
      by apply bool_decide_eq_true_1 in Hdata.
    - intros (g & f & Hg & Hin & Hty & <-). exists g.
      rewrite <- list_elem_of_In. split; [done |].
      apply in_map, filter_In. rewrite <- list_elem_of_In.
      split; [done |]. by apply bool_decide_eq_true_2. }
  split.
  { intros g f Hg Hin. apply elem_of_app. right.
    apply list_elem_of_fmap. exists (filename f). split; [done |].
    unfold all_file_names. rewrite list_elem_of_In, in_flat_map.
    exists g. rewrite <- !list_elem_of_In. split; [done |].
    apply list_elem_of_fmap. by exists f. }
  intros w2 gs2 out2 w2' Hjob2 Hfs Hext Hcfg Hdata Hp2.
  destruct (process_val_elim w2 gs2 out2 w2' Hjob2 Hp2)
    as (locals2 & sx12 & keys2 & sx22 & Hf2 & Hrun2 & _ & ->).
  rewrite Hfs, Hext, Hdata, Hf in Hf2. injection Hf2 as <- <-.
  rewrite Hcfg in Hrun2.
  destruct (sidecar_run_fun _ _ _ _ _ _ _ Hrun Hrun2) as [<- _].
  by exists keys.
Qed.

(** C6. The digest is a function of the bytes: two computations on files
    with equal contents, in whatever states and under whatever paths,
    return the same hexadecimal string. *)
Theorem digest_is_deterministic w1 w2 (p1 p2 : string) (data : list byte) :
  fs_files (fs w1) !! p1 = Some data → p1 ∉ faulty (fs w1) →
  fs_files (fs w2) !! p2 = Some data → p2 ∉ faulty (fs w2) →
  ∃ md5_sum,
    _get_md5_sum p1 w1 = (Val md5_sum, w1) ∧
    _get_md5_sum p2 w2 = (Val md5_sum, w2) ∧
    _get_md5_sum p1 (_get_md5_sum p1 w1).2 = (Val md5_sum, w1).
Proof.
  intros H1 Hf1 H2 Hf2. exists (MD5.hexdigest data).
  assert (_get_md5_sum p1 w1 = (Val (MD5.hexdigest data), w1)) as E1.
  { rewrite get_md5_sum_unfold, H1. by rewrite bool_decide_eq_false_2. }
  split; [done |]. split; [|by rewrite E1].
  rewrite get_md5_sum_unfold, H2. by rewrite bool_decide_eq_false_2.
Qed.

(** C7. [process] does not write to the caller's objects: whatever it
    returns, every object that was in the store when it was called is
    still there, unchanged, so the payload reads back as the same tree.
    What [process] iterates over is a deep copy: [deepcopy] of a finite
    tree returns a value that reads back as the same tree from the
    objects the call itself allocated, and changes no other object. *)
Theorem input_is_not_mutated :
  (∀ w r w' l o,
      heap_wf (heap w) → process w = (r, w') →
      objs (heap w) !! l = Some o → objs (heap w') !! l = Some o) ∧
  (∀ w r w' n t,
      heap_wf (heap w) → process w = (r, w') →
      read_tree n (objs (heap w)) (self_input w) = Some t →
      read_tree n (objs (heap w')) (self_input w) = Some t) ∧
  (∀ h x n t fuel,
      heap_wf h → read_tree n (objs h) x = Some t → n ≤ fuel →
      ∃ x' memo h',
        deepcopy fuel x ∅ h = (Val (x', memo), h') ∧
        repr_in (above (next_loc h) (objs h')) x' t ∧
        ∀ l, l < next_loc h → objs h' !! l = objs h !! l).
Proof.
  assert (Hsub : ∀ w r w', heap_wf (heap w) → process w = (r, w') →
                           objs (heap w) ⊆ objs (heap w')).
  { intros w r w' Hwf Hp. pose proof (process_heap_grows w) as Hext.
    rewrite Hp in Hext. by apply heap_ext_subseteq. }
  split.
  { intros w r w' l o Hwf Hp Hl.
    eapply lookup_weaken; [done | by eapply Hsub]. }
  split.
  { intros w r w' n t Hwf Hp Hread.
    eapply read_tree_mono; [done | done | by eapply Hsub]. }
  intros h x n t fuel Hwf Hread Hfuel.
  destruct (deepcopy_correct (objs h) (next_loc h) n fuel Hfuel x t ∅ h Hread
              ltac:(done) Hwf ltac:(done)
              (memo_ok_empty _ _ _ _))
    as (x' & memo & h' & Hrun & Hrepr & _ & _ & [[_ Hframe] _]).
  by exists x', memo, h'.
Qed.
(** C8. No failure is caught. With a job payload in [self.input],
    [process] raises exactly when [fetch] raises, or the sidecar of one
    local file fails after those before it were made, or the cleanup
    raises; it then raises that exception, returns no list, and leaves the
    file system and the library as the failure left them: the local files
    after the failing one are not touched and nothing is retried. In
    particular a local file that cannot be read, an absent configuration
    key and a failing [upload] each end the batch. *)
Theorem failures_abort_the_batch w gs :
  job_input w gs →
  (∀ e sx',
      batch_failure (self_config w) (map VStr (data_file_names gs))
                    (fs w, ext w) e sx' →
      ∃ w', process w = (Exc e, w') ∧ (fs w', ext w') = sx') ∧
  (∀ e w',
      process w = (Exc e, w') →
      batch_failure (self_config w) (map VStr (data_file_names gs))
                    (fs w, ext w) e (fs w', ext w')) ∧
  (∀ e sx',
      lib_fetch input_keys "hdf" false (map VStr (data_file_names gs))
                (fs w, ext w) = (Exc e, sx') →
      ∃ w', process w = (Exc e, w') ∧ (fs w', ext w') = sx') ∧
  (∀ pre p post sx1 ks sx2,
      lib_fetch input_keys "hdf" false (map VStr (data_file_names gs))
                (fs w, ext w) = (Val (pre ++ p :: post), sx1) →
      sidecar_run (self_config w) sx1 pre ks sx2 →
      (fs_files sx2.1 !! p = None →
       ∃ w', process w = (Exc (FileNotFoundError p), w') ∧
             (fs w', ext w') = sx2) ∧
      (∀ data, fs_files sx2.1 !! p = Some data → p ∉ faulty sx2.1 →
               config_values (self_config w) = None →
       ∃ w', process w = (Exc (KeyError (missing_key (self_config w))), w') ∧
             (fs w', ext w') = sx2) ∧
      (∀ data k e sx',
          fs_files sx2.1 !! p = Some data → p ∉ faulty sx2.1 →
          sidecar_key (self_config w) p = Some k →
          p +:+ ".md5" ∉ unwritable sx2.1 → p +:+ ".md5" ∉ faulty sx2.1 →
          lib_upload (p +:+ ".md5") k (with_sidecar p data sx2.1, sx2.2)
          = (Exc e, sx') →
          ∃ w', process w = (Exc e, w') ∧ (fs w', ext w') = sx')).
Proof.
  intros Hjob.
  assert (Hintro := process_exc_intro w gs).
  split; [intros e sx'; by apply Hintro |].
  split; [intros e w'; by apply process_exc_elim |].
  split; [intros e sx' Hf; apply Hintro; [done | by left] |].
  intros pre p post sx1 ks sx2 Hf Hrun.
  assert (Hfail : ∀ e sx', sidecar_failure (self_config w) sx2 p e sx' →
                           ∃ w', process w = (Exc e, w') ∧ (fs w', ext w') = sx').
  { intros e sx' Hs. apply Hintro; [done |].
    right. left. by exists pre, p, post, sx1, ks, sx2. }
  split; [|split].
  - intros Hnone. apply Hfail. unfold sidecar_failure. by rewrite Hnone.
  - intros data Hd Hfaulty Hcfg. apply Hfail. unfold sidecar_failure, sidecar_key.
    rewrite Hd, Hcfg. by rewrite bool_decide_eq_false_2.
  - intros data k e sx' Hd Hfaulty Hk Hu Hf' Hup. apply Hfail.
    unfold sidecar_failure. rewrite Hd, Hk.
    by rewrite !bool_decide_eq_false_2.
Qed.

(** C9. [_get_md5_sum] and [_write_md5sum_file] hold their file only
    while they run: whether they return or raise, the handles open after
    the call are those open before it. This covers an error raised by the
    read or the write itself, once the file is open. *)
Theorem files_are_closed_on_every_path w (p sum : string) :
  open_files (fs (_get_md5_sum p w).2) = open_files (fs w) ∧
  open_files (fs (_write_md5sum_file p sum w).2) = open_files (fs w) ∧
  (is_Some (fs_files (fs w) !! p) → p ∈ faulty (fs w) →
   (_get_md5_sum p w).1 = Exc (OSError p)) ∧
  (p ∉ unwritable (fs w) → p ∈ faulty (fs w) →
   (_write_md5sum_file p sum w).1 = Exc (OSError p)).
Proof.
  assert (Hfs : ∀ A (m : M FS A),
    (∀ s, open_files (m s).2 = open_files s) →
    open_files (fs (on_fs m w).2) = open_files (fs w)).
  { intros A m Hm. unfold on_fs, zoom. specialize (Hm (fs w)).
    by destruct (m (fs w)). }
  split; [|split; [|split]].
  - apply Hfs. intros s. apply with_open_handles. intros f s1.
    rewrite bind_unfold. pose proof (read_handles f s1) as Hr.
    by destruct (read f s1) as [[data|e] s2].
  - apply Hfs. intros s. apply with_open_handles. intros f s1.
    apply write_handles.
  - intros [data Hd] Hf. rewrite get_md5_sum_unfold, Hd.
    by rewrite bool_decide_eq_true_2.
  - intros Hu Hf. rewrite write_md5sum_file_unfold.
    rewrite bool_decide_eq_false_2 by done.
    by rewrite bool_decide_eq_true_2.
Qed.

(** C10. [process] rebinds [self.input]: whatever it returns, the
    attribute no longer refers to the payload but to a new list, which
    holds the filenames of the files of type ["data"] and nothing else; a
    second call on the same handler fails on it with a [TypeError]. *)
Theorem process_replaces_self_input w gs r w' :
  job_input w gs →
  process w = (r, w') →
  ∃ l,
    self_input w' = VRef l ∧
    self_input w' ≠ self_input w ∧
    objs (heap w) !! l = None ∧
    objs (heap w') !! l = Some (OList (map VStr (data_file_names gs))) ∧
    process w' = (Exc TypeError, w').
Proof.
  intros Hjob Hp.
  destruct (process_end w gs r w' Hjob Hp)
    as (_ & _ & _ & l & Hin & Hl & Hobj).
  destruct (job_input_ref w gs Hjob) as (l0 & Hin0 & Hl0).
  exists l. split; [done |]. split.
  { rewrite Hin, Hin0. intros [= ->]. lia. }
  split; [apply heap_wf_fresh; [apply Hjob | done] |].
  split; [done |]. by eapply process_again.
Qed.

End Claims.

(** * The properties on the example job *)
Lemma outcome_eq {St A} (p : outcome A * St) (r : outcome A) :
  p.1 = r → p = (r, p.2).
Proof. destruct p. simpl. by intros ->. Defined.

Lemma example_run :
  process Example.world
  = (Val [VStr "s3://mybucket/staging/dev/MOD09__006/modis.hdf.md5";
          VStr "s3://in/modis.hdf"; VStr "s3://in/modis.cmr.xml"],
     (process Example.world).2).
Proof. apply outcome_eq. vm_compute. reflexivity. Defined.

Lemma example_sidecar :
  add_ancillary_file "modis.hdf" Example.local_world
  = (Val "s3://mybucket/staging/dev/MOD09__006/modis.hdf.md5",
     (add_ancillary_file "modis.hdf" Example.local_world).2).
Proof. apply outcome_eq. vm_compute. reflexivity. Defined.

Lemma example_without_stack_job_input :
  job_input Example.world_without_stack Example.granules.
Proof.
  split; [unfold heap_wf; by_compute |].
  eexists. split; [vm_compute; reflexivity | vm_compute; reflexivity].
Defined.

Lemma process_returns_keys_then_filenames_witness :
  ∃ locals sx1 keys,
    lib_fetch input_keys "hdf" false
              (map VStr (data_file_names Example.granules))
              (fs Example.world, ext Example.world) = (Val locals, sx1) ∧
    Forall2 (λ p k, sidecar_key (self_config Example.world) p = Some k)
            locals keys ∧
    [VStr "s3://mybucket/staging/dev/MOD09__006/modis.hdf.md5";
     VStr "s3://in/modis.hdf"; VStr "s3://in/modis.cmr.xml"]
    = map VStr keys ++ map VStr (all_file_names Example.granules).
Proof.
  exact (proj2 (process_returns_keys_then_filenames
                  Example.world Example.granules example_job_input)
               _ _ example_run).
Defined.

Lemma one_sidecar_per_local_file_witness :
  ∃ locals keys : list string,
    length keys = length locals ∧
    [VStr "s3://mybucket/staging/dev/MOD09__006/modis.hdf.md5";
     VStr "s3://in/modis.hdf"; VStr "s3://in/modis.cmr.xml"]
    = map VStr keys ++ map VStr (all_file_names Example.granules).
Proof.
  destruct (proj1 (one_sidecar_per_local_file
                     Example.world Example.granules example_job_input)
                  _ _ example_run)
    as (locals & sx1 & keys & sx2 & Hf & Hout & Hlen & _).
  exists locals, keys. exact (conj Hlen Hout).
Defined.

Lemma remote_key_is_formatted_witness :
  ∃ bucket stack name version,
    config_values (self_config Example.local_world)
    = Some (bucket, stack, name, version) ∧
    "s3://mybucket/staging/dev/MOD09__006/modis.hdf.md5"
    = "s3://" +:+ bucket +:+ "/staging/" +:+ stack +:+ "/" +:+
      name +:+ "__" +:+ version +:+ "/" +:+
      (os_path_split "modis.hdf").2 +:+ ".md5".
Proof.
  exact (proj1 remote_key_is_formatted Example.local_world "modis.hdf" _ _
               example_sidecar).
Defined.

Lemma sidecar_holds_the_hex_digest_witness :
  ∃ md5_sum w',
    _get_md5_sum "modis.hdf" Example.local_world
    = (Val md5_sum, Example.local_world) ∧
    _write_md5sum_file ("modis.hdf" +:+ ".md5") md5_sum Example.local_world
    = (Val tt, w') ∧
    fs_files (fs w') !! ("modis.hdf" +:+ ".md5")
    = Some (bytes_of_string md5_sum) ∧
    md5_sum = MD5.hexdigest (bytes_of_string "test") ∧
    length (MD5.digest (bytes_of_string "test")) = 16 ∧
    String.length md5_sum = 32 ∧
    Forall (λ c, lower_hex c = true) (list_ascii_of_string md5_sum) ∧
    (bytes_of_string "test" = bytes_of_string "test" →
     md5_sum = "098f6bcd4621d373cade4e832627b4f6").
Proof.
  apply (sidecar_holds_the_hex_digest Example.local_world "modis.hdf"
           (bytes_of_string "test")).
  - vm_compute. reflexivity.
  - by_compute.
  - by_compute.
  - by_compute.
Defined.

Lemma example_other_job_input :
  job_input Example.other_world Example.other_granules.
Proof.
  split; [unfold heap_wf; by_compute |].
  eexists. split; [vm_compute; reflexivity | vm_compute; reflexivity].
Defined.

Lemma example_other_run :
  process Example.other_world
  = (Val [VStr "s3://mybucket/staging/dev/MOD09__006/modis.hdf.md5";
          VStr "s3://in/modis.jpg"; VStr "s3://in/modis.hdf"],
     (process Example.other_world).2).
Proof. apply outcome_eq. vm_compute. reflexivity. Defined.

Lemma other_files_give_no_sidecar_witness :
  VStr "s3://in/modis.cmr.xml"
  ∈ [VStr "s3://mybucket/staging/dev/MOD09__006/modis.hdf.md5";
     VStr "s3://in/modis.hdf"; VStr "s3://in/modis.cmr.xml"] ∧
  ∃ keys,
    [VStr "s3://mybucket/staging/dev/MOD09__006/modis.hdf.md5";
     VStr "s3://in/modis.hdf"; VStr "s3://in/modis.cmr.xml"]
    = map VStr keys ++ map VStr (all_file_names Example.granules) ∧
    [VStr "s3://mybucket/staging/dev/MOD09__006/modis.hdf.md5";
     VStr "s3://in/modis.jpg"; VStr "s3://in/modis.hdf"]
    = map VStr keys ++ map VStr (all_file_names Example.other_granules).
Proof.
  destruct (other_files_give_no_sidecar Example.world Example.granules _ _
              example_job_input example_run) as (_ & _ & Hin & Hsame).
  split.
  - apply (Hin (mkGranule [mkFile "s3://in/modis.hdf" "data";
                           mkFile "s3://in/modis.cmr.xml" "metadata"])
               (mkFile "s3://in/modis.cmr.xml" "metadata")).
    + apply list_elem_of_here.
    + apply list_elem_of_further, list_elem_of_here.
  - exact (Hsame Example.other_world Example.other_granules _ _
             example_other_job_input eq_refl eq_refl eq_refl eq_refl
             example_other_run).
Defined.

Lemma digest_is_deterministic_witness :
  ∃ md5_sum,
    _get_md5_sum "modis.hdf" Example.local_world
    = (Val md5_sum, Example.local_world) ∧
    _get_md5_sum "modis.hdf" Example.local_world
    = (Val md5_sum, Example.local_world) ∧
    _get_md5_sum "modis.hdf"
      (_get_md5_sum "modis.hdf" Example.local_world).2
    = (Val md5_sum, Example.local_world).
Proof.
  apply (digest_is_deterministic Example.local_world Example.local_world
           "modis.hdf" "modis.hdf" (bytes_of_string "test")).
  - vm_compute. reflexivity.
  - by_compute.
  - vm_compute. reflexivity.
  - by_compute.
Defined.

Lemma input_is_not_mutated_witness :
  objs (heap (process Example.world).2) !! 0
  = Some (ODict [("granules", VRef 1)]).
Proof.
  apply (proj1 input_is_not_mutated Example.world
               (process Example.world).1 (process Example.world).2).
  - unfold heap_wf. by_compute.
  - apply surjective_pairing.
  - vm_compute. reflexivity.
Defined.

Lemma failures_abort_the_batch_witness :
  ∃ w', process Example.world_without_stack
        = (Exc (KeyError "stack"), w').
Proof.
  pose (sx1 := (lib_fetch input_keys "hdf" false
                  (map VStr (data_file_names Example.granules))
                  (fs Example.world_without_stack,
                   ext Example.world_without_stack)).2).
  destruct (proj2 (proj2 (proj2 (failures_abort_the_batch
              Example.world_without_stack Example.granules
              example_without_stack_job_input)))
              [] "modis.hdf" [] sx1 [] sx1) as (_ & Hkey & _).
  - apply outcome_eq. vm_compute. reflexivity.
  - apply run_done.
  - destruct (Hkey (bytes_of_string "test")) as (w' & Hp & _).
    + vm_compute. reflexivity.
    + by_compute.
    + reflexivity.
    + exists w'. exact Hp.
Defined.

Lemma files_are_closed_on_every_path_witness :
  open_files (fs (_get_md5_sum "modis.hdf" Example.local_world).2)
  = open_files (fs Example.local_world).
Proof.
  exact (proj1 (files_are_closed_on_every_path
                  Example.local_world "modis.hdf" "")).
Defined.

Lemma process_replaces_self_input_witness :
  ∃ l,
    self_input (process Example.world).2 = VRef l ∧
    self_input (process Example.world).2 ≠ self_input Example.world ∧
    objs (heap Example.world) !! l = None ∧
    objs (heap (process Example.world).2) !! l
    = Some (OList (map VStr (data_file_names Example.granules))) ∧
    process (process Example.world).2
    = (Exc TypeError, (process Example.world).2).
Proof.
  exact (process_replaces_self_input Example.world Example.granules _ _
           example_job_input example_run).
Defined.

(** * Further properties of the handler *)

(** ** Reading the payload leaves the store as it is *)
Lemma heap_pure_ret {A} (a : A) : heap_pure (mret a).
Proof. by intros h. Qed.

Lemma heap_pure_raise {A} (e : exn) : heap_pure (raise (A := A) e).
Proof. by intros h. Qed.

Lemma heap_pure_bind {A B} (m : M Heap A) (k : A → M Heap B) :
  heap_pure m → (∀ a, heap_pure (k a)) → heap_pure (m ≫= k).
Proof.
  intros Hm Hk h. rewrite bind_unfold. specialize (Hm h).
  destruct (m h) as [[a|e] h1]; simpl in *; subst; [apply Hk | done].
Qed.

Lemma heap_pure_subscript (x : val) (k : string) : heap_pure (subscript x k).
Proof.
  destruct x; try apply heap_pure_raise.
  apply heap_pure_bind; [intros h; apply deref_state |].
  intros [items|items]; [apply heap_pure_raise |].
  unfold key. destruct (assoc k items);
    [apply heap_pure_ret | apply heap_pure_raise].
Qed.

Lemma heap_pure_iterate (x : val) : heap_pure (iterate x).
Proof.
  destruct x; try apply heap_pure_raise; try apply heap_pure_ret.
  apply heap_pure_bind; [intros h; apply deref_state |].
  intros [items|items]; apply heap_pure_ret.
Qed.

Lemma heap_pure_for_each {A B} (xs : list A) (body : A → M Heap (list B)) :
  (∀ a, heap_pure (body a)) → heap_pure (for_each xs body).
Proof.
  intros Hbody. induction xs as [|a xs IH]; simpl; [apply heap_pure_ret |].
  apply heap_pure_bind; [done |]. intros ys.
  apply heap_pure_bind; [done |]. intros zs. apply heap_pure_ret.
Qed.

Section EarlyFailure.
Context {X : Type} `{!Library X}.
Implicit Types (w : World X).

Lemma on_heap_pure {A} (m : M Heap A) w :
  heap_pure m → on_heap m w = ((m (heap w)).1, w).
Proof.
  intros Hm. unfold on_heap, zoom. specialize (Hm (heap w)).
  destruct (m (heap w)) as [r h1]. simpl in *. subst. by rewrite set_heap_id.
Qed.

(** [process] either raises while it reads the payload, having changed
    nothing but the store, or it goes on to [fetch] with [self.input]
    bound to a new list. *)
Lemma process_cases w :
  heap_wf (heap w) →
  (∃ e h', heap_ext (heap w) h' ∧ process w = (Exc e, set_heap h' w)) ∨
  (∃ h' datas names,
      heap_ext (heap w) h' ∧ heap_wf h' ∧
      process w =
      finish datas names
             (mkWorld (alloc (OList datas) h').2 (VRef (next_loc h'))
                      (self_config w) (fs w) (ext w) (recursion_limit w))).
Proof.
  intros Hwf. destruct w as [h input cfg s x limit]. simpl in *.
  remember (process (mkWorld h input cfg s x limit)) as P eqn:HP.
  unfold process in HP. rewrite bind_unfold in HP. unfold gets at 1 in HP.
  cbn beta iota in HP. rewrite bind_unfold in HP. unfold gets at 1 in HP.
  cbn beta iota in HP. simpl self_input in HP. simpl recursion_limit in HP.
  rewrite bind_unfold, on_heap_pure in HP by apply heap_pure_subscript.
  simpl heap in HP.
  destruct (subscript input "granules" h).1 as [pg|e].
  2: { left. exists e, h. split; [apply heap_ext_refl | done]. }
  cbn beta iota in HP. rewrite bind_unfold in HP.
  unfold on_heap at 1, zoom at 1 in HP. simpl heap in HP.
  pose proof (deepcopy_ext limit pg ∅ h) as Hext.
  destruct (deepcopy limit pg ∅ h) as [[[granules memo]|e] h1].
  2: { left. by exists e, h1. }
  simpl in Hext. cbn beta iota in HP.
  assert (heap_wf h1) as Hwf1 by by apply Hext.
  rewrite bind_unfold, on_heap_pure in HP.
  2: { apply heap_pure_bind; [apply heap_pure_iterate |]. intros gl.
       apply heap_pure_for_each. intros g.
       apply heap_pure_bind; [apply heap_pure_subscript |]. intros fl.
       apply heap_pure_bind; [apply heap_pure_iterate |]. intros fl'.
       apply heap_pure_for_each. intros f.
       apply heap_pure_bind; [apply heap_pure_subscript |]. intros name.
       apply heap_pure_ret. }
  match type of HP with context [ (?m (heap ?w0)).1 ] =>
    destruct (m (heap w0)).1 as [names|e] end.
  2: { left. by exists e, h1. }
  cbn beta iota in HP. rewrite bind_unfold, on_heap_pure in HP.
  2: { apply heap_pure_bind; [apply heap_pure_iterate |]. intros gl.
       apply heap_pure_for_each. intros g.
       apply heap_pure_bind; [apply heap_pure_subscript |]. intros fl.
       apply heap_pure_bind; [apply heap_pure_iterate |]. intros fl'.
       apply heap_pure_for_each. intros f.
       apply heap_pure_bind; [apply heap_pure_subscript |]. intros ty.
       destruct (eq_str ty "data"); [|apply heap_pure_ret].
       apply heap_pure_bind; [apply heap_pure_subscript |]. intros name.
       apply heap_pure_ret. }
  match type of HP with context [ (?m (heap ?w0)).1 ] =>
    destruct (m (heap w0)).1 as [datas|e] end.
  2: { left. by exists e, h1. }
  cbn beta iota in HP. right. exists h1, datas, names.
  split; [done |]. split; [done |].
  rewrite bind_unfold in HP.
  rewrite (on_heap_val _ _ (next_loc h1) (alloc (OList datas) h1).2) in HP
    by done.
  cbn beta iota in HP. rewrite bind_unfold in HP.
  unfold set_input, modify in HP. cbn beta iota in HP. simpl in HP.
  rewrite HP. unfold finish. rewrite !bind_unfold.
  erewrite fetch_list; [reflexivity | reflexivity | apply lookup_insert_eq].
Qed.
End EarlyFailure.

Section Rejection.
Context {X : Type} `{!Library X}.
Implicit Types (w : World X).

(** X1. [process] calls the library only after it has rebound
    [self.input]. A call that ends with [self.input] as it was has raised
    while reading the payload, with the file system, the library's state
    and the configuration untouched; any other call leaves [self.input]
    bound to a list that did not exist before. *)
Theorem library_runs_only_after_narrowing w r w' :
  heap_wf (heap w) →
  process w = (r, w') →
  (∃ e, r = Exc e ∧ self_input w' = self_input w ∧
        fs w' = fs w ∧ ext w' = ext w ∧ self_config w' = self_config w) ∨
  (∃ l items, self_input w' = VRef l ∧
              objs (heap w) !! l = None ∧
              objs (heap w') !! l = Some (OList items) ∧
              self_config w' = self_config w).
Proof.
  intros Hwf Hp.
  destruct (process_cases w Hwf)
    as [(e & h' & _ & He)|(h' & datas & names & Hext & Hwf' & Hf)].
  - left. rewrite He in Hp. injection Hp as <- <-. exists e. by destruct w.
  - right. rewrite Hf in Hp.
    pose proof (finish_keeps datas names
      (mkWorld (alloc (OList datas) h').2 (VRef (next_loc h'))
               (self_config w) (fs w) (ext w) (recursion_limit w))) as Hk.
    rewrite Hp in Hk. destruct Hk as (Hh & Hi & Hc & _). simpl in *.
    exists (next_loc h'), datas. rewrite Hh, Hi, Hc.
    split; [done |]. split; [|split; [apply lookup_insert_eq | done]].
    apply heap_wf_fresh; [done |]. by destruct Hext as [[? _] _].
Qed.

(** X2. A payload that is not a dict, or has no ['granules'], or whose
    ['granules'] is [None] or a number, is rejected at once: [process]
    raises [TypeError] or [KeyError('granules')] and changes nothing, not
    even the store. *)
Theorem malformed_payload_is_rejected w :
  ((∀ l, self_input w = VRef l →
         ∃ items, objs (heap w) !! l = Some (OList items)) →
   process w = (Exc TypeError, w)) ∧
  (∀ l items,
      self_input w = VRef l → objs (heap w) !! l = Some (ODict items) →
      assoc "granules" items = None →
      process w = (Exc (KeyError "granules"), w)) ∧
  (∀ l items pg,
      self_input w = VRef l → objs (heap w) !! l = Some (ODict items) →
      assoc "granules" items = Some pg →
      pg = VNone ∨ (∃ n, pg = VInt n) →
      process w = (Exc TypeError, w)).
Proof.
  remember (process w) as P eqn:HP.
  unfold process in HP. rewrite bind_unfold in HP. unfold gets at 1 in HP.
  cbn beta iota in HP. rewrite bind_unfold in HP. unfold gets at 1 in HP.
  cbn beta iota in HP.
  rewrite bind_unfold, on_heap_pure in HP by apply heap_pure_subscript.
  split; [|split].
  - intros Hin.
    assert ((subscript (self_input w) "granules" (heap w)).1 = Exc TypeError)
      as Hs.
    { destruct (self_input w) as [s|z| |l] eqn:E; try done.
      destruct (Hin l eq_refl) as (items & Hl).
      unfold subscript. rewrite bind_unfold. unfold deref. by rewrite Hl. }
    by rewrite Hs in HP.
  - intros l items Hin Hl Hg.
    assert ((subscript (self_input w) "granules" (heap w)).1
            = Exc (KeyError "granules")) as Hs.
    { rewrite Hin. unfold subscript. rewrite bind_unfold. unfold deref.
      rewrite Hl. cbn beta iota. by rewrite Hg. }
    by rewrite Hs in HP.
  - intros l items pg Hin Hl Hg Hpg.
    assert ((subscript (self_input w) "granules" (heap w)).1 = Val pg) as Hs.
    { rewrite Hin. unfold subscript. rewrite bind_unfold. unfold deref.
      rewrite Hl. cbn beta iota. by rewrite Hg. }
    rewrite Hs in HP. cbn beta iota in HP.
    assert (deepcopy (recursion_limit w) pg ∅ (heap w)
            = (Val (pg, ∅), heap w)) as Hcopy.
    { destruct Hpg as [->|[n ->]]; by destruct (recursion_limit w). }
    rewrite bind_unfold in HP.
    rewrite (on_heap_val _ _ (pg, ∅) (heap w)), set_heap_id in HP by done.
    cbn beta iota in HP. rewrite bind_unfold, on_heap_pure in HP.
    2: { apply heap_pure_bind; [apply heap_pure_iterate |]. intros gl.
         apply heap_pure_for_each. intros g.
         apply heap_pure_bind; [apply heap_pure_subscript |]. intros fl.
         apply heap_pure_bind; [apply heap_pure_iterate |]. intros fl'.
         apply heap_pure_for_each. intros f.
         apply heap_pure_bind; [apply heap_pure_subscript |]. intros name.
         apply heap_pure_ret. }
    by destruct Hpg as [->|[n ->]].
Qed.
End Rejection.

(** ** Files without a filename or a type *)
Lemma for_each_outcome {A B V} (R : A → V → Prop) (ok : V → bool)
    (body : A → M Heap (list B)) (e : exn) (h : Heap)
    (xs : list A) (vs : list V) :
  (∀ a, heap_pure (body a)) →
  Forall2 R xs vs →
  (∀ a v, R a v →
     if ok v then ∃ ys, (body a h).1 = Val ys else (body a h).1 = Exc e) →
  if forallb ok vs then ∃ zs, (for_each xs body h).1 = Val zs
  else (for_each xs body h).1 = Exc e.
Proof.
  intros Hpure HR Hbody.
  induction HR as [|a v xs vs Hav _ IH]; simpl; [by eexists |].
  rewrite bind_unfold. specialize (Hbody a v Hav).
  pose proof (Hpure a h) as Hst.
  destruct (body a h) as [r h1]. simpl in *. subst h1.
  destruct (ok v); simpl.
  - destruct Hbody as [ys ->]. rewrite bind_unfold.
    pose proof (heap_pure_for_each xs body Hpure h) as Hst.
    destruct (for_each xs body h) as [r' h1]. simpl in *. subst h1.
    destruct (forallb ok vs).
    + destruct IH as [zs ->]. by eexists.
    + by rewrite IH.
  - by rewrite Hbody.
Qed.

Lemma assoc_read_none (n : nat) (m : gmap nat obj) (k : string)
    (items : list (string * val)) (kts : list (string * tree)) :
  mapM (λ kv, pair kv.1 <$> read_tree n m kv.2) items = Some kts →
  assoc k kts = None → assoc k items = None.
Proof.
  intros H. apply mapM_Some in H.
  induction H as [|[k1 v1] [k2 t2] items kts Hkv _ IH]; simpl; [done |].
  apply fmap_Some in Hkv as (t' & Ht' & [= -> ->]). simpl in *.
  by case_bool_decide.
Qed.

Lemma subscript_absent (h : Heap) (v : val) (k : string)
    (kts : list (string * tree)) :
  repr_in (objs h) v (TDict kts) → assoc k kts = None →
  subscript v k h = (Exc (KeyError k), h).
Proof.
  intros [n Hr] Hk. destruct n, v as [s|z| |l]; simpl in Hr; try done.
  destruct (objs h !! l) as [[items|items]|] eqn:Hl; [| |done].
  - by apply fmap_Some in Hr as (? & _ & ?).
  - apply fmap_Some in Hr as (kts' & Hm & [= <-]).
    unfold subscript. rewrite bind_unfold. unfold deref. rewrite Hl.
    cbn beta iota. by rewrite (assoc_read_none _ _ _ _ _ Hm Hk).
Qed.

Lemma loose_field (h : Heap) (file : val) (k : string)
    (kts : list (string * tree)) (o : option string) :
  repr_in (objs h) file (TDict kts) → view_field k kts = Some o →
  subscript file k h
  = (match o with Some s => Val (VStr s) | None => Exc (KeyError k) end, h).
Proof.
  intros Hr Hv. unfold view_field in Hv.
  destruct (assoc k kts) as [t|] eqn:Hk.
  - destruct t as [s| | | |]; try done. injection Hv as <-.
    destruct (subscript_repr _ _ _ _ _ Hr Hk) as (v' & Hs & Hr').
    by apply repr_in_str in Hr' as ->.
  - injection Hv as <-. by apply (subscript_absent h file k kts).
Qed.

Lemma loose_file_fields (h : Heap) (file : val) (t : tree) (f : LooseFile) :
  repr_in (objs h) file t → view_loose_file t = Some f →
  subscript file "filename" h
  = (match lf_filename f with
     | Some s => Val (VStr s) | None => Exc (KeyError "filename")
     end, h) ∧
  subscript file "type" h
  = (match lf_type f with
     | Some s => Val (VStr s) | None => Exc (KeyError "type")
     end, h).
Proof.
  intros Hr Hv. destruct t as [| | | |kts]; try done. simpl in Hv.
  destruct (view_field "filename" kts) as [fn|] eqn:Hfn; [|done].
  destruct (view_field "type" kts) as [ty|] eqn:Hty; [|done].
  injection Hv as <-. simpl.
  split; by apply (loose_field h file _ kts).
Qed.

Lemma loose_granule_files (h : Heap) (granule : val) (t : tree)
    (lg : list LooseFile) :
  repr_in (objs h) granule t → view_loose_granule t = Some lg →
  ∃ vfl fl,
    subscript granule "files" h = (Val vfl, h) ∧
    iterate vfl h = (Val fl, h) ∧
    Forall2 (λ file f, ∃ tf, repr_in (objs h) file tf ∧
                            view_loose_file tf = Some f) fl lg.
Proof.
  intros Hr Hv. destruct t as [| | | |kts]; try done. simpl in Hv.
  destruct (assoc "files" kts) as [[| | |tfs|]|] eqn:Hfiles; try done.
  destruct (subscript_repr _ _ _ _ _ Hr Hfiles) as (vfl & Hsub & Hrfl).
  destruct (iterate_repr _ _ _ Hrfl) as (fl & Hit & Hrs).
  exists vfl, fl. split; [done |]. split; [done |].
  apply mapM_Some in Hv. clear -Hrs Hv. revert lg Hv.
  induction Hrs as [|file tf fl tfs Hf _ IH]; intros lg Hv;
    inversion Hv; subst; constructor; [by exists tf | by apply IH].
Qed.

Lemma heap_pure_original_names (granules : val) :
  heap_pure (original_file_names_of granules).
Proof.
  apply heap_pure_bind; [apply heap_pure_iterate |]. intros gl.
  apply heap_pure_for_each. intros g.
  apply heap_pure_bind; [apply heap_pure_subscript |]. intros fl.
  apply heap_pure_bind; [apply heap_pure_iterate |]. intros fl'.
  apply heap_pure_for_each. intros f.
  apply heap_pure_bind; [apply heap_pure_subscript |]. intros name.
  apply heap_pure_ret.
Qed.

Lemma heap_pure_data_names (granules : val) :
  heap_pure (data_file_names_of granules).
Proof.
  apply heap_pure_bind; [apply heap_pure_iterate |]. intros gl.
  apply heap_pure_for_each. intros g.
  apply heap_pure_bind; [apply heap_pure_subscript |]. intros fl.
  apply heap_pure_bind; [apply heap_pure_iterate |]. intros fl'.
  apply heap_pure_for_each. intros f.
  apply heap_pure_bind; [apply heap_pure_subscript |]. intros ty.
  destruct (eq_str ty "data"); [|apply heap_pure_ret].
  apply heap_pure_bind; [apply heap_pure_subscript |]. intros name.
  apply heap_pure_ret.
Qed.

(** The first comprehension fails on the first file without a filename. *)
Lemma original_names_outcome (h : Heap) (granules : val)
    (tgs : list tree) (lgs : list (list LooseFile)) :
  repr_in (objs h) granules (TList tgs) →
  mapM view_loose_granule tgs = Some lgs →
  if forallb (forallb has_filename) lgs
  then ∃ names, (original_file_names_of granules h).1 = Val names
  else (original_file_names_of granules h).1 = Exc (KeyError "filename").
Proof.
  intros Hr Hv. destruct (iterate_repr _ _ _ Hr) as (gl & Hit & Hgl).
  unfold original_file_names_of. rewrite bind_unfold, Hit.
  apply (for_each_outcome
           (λ g lg, ∃ t, repr_in (objs h) g t ∧ view_loose_granule t = Some lg)).
  - intros g. apply heap_pure_bind; [apply heap_pure_subscript |]. intros fl.
    apply heap_pure_bind; [apply heap_pure_iterate |]. intros fl'.
    apply heap_pure_for_each. intros f.
    apply heap_pure_bind; [apply heap_pure_subscript |]. intros name.
    apply heap_pure_ret.
  - apply mapM_Some in Hv. clear -Hgl Hv. revert lgs Hv.
    induction Hgl as [|g t gl tgs Hg _ IH]; intros lgs Hv;
      inversion Hv; subst; constructor; [by exists t | by apply IH].
  - intros g lg (t & Hg & Hvg).
    destruct (loose_granule_files _ _ _ _ Hg Hvg) as (vfl & fl & Hs & Hi & Hfl).
    rewrite bind_unfold, Hs. cbn beta iota. rewrite bind_unfold, Hi.
    cbn beta iota.
    apply (for_each_outcome
             (λ file f, ∃ tf, repr_in (objs h) file tf ∧
                              view_loose_file tf = Some f)); [| done |].
    + intros f. apply heap_pure_bind; [apply heap_pure_subscript |].
      intros name. apply heap_pure_ret.
    + intros file f (tf & Hf & Hvf).
      destruct (loose_file_fields _ _ _ _ Hf Hvf) as [Hname _].
      rewrite bind_unfold, Hname. unfold has_filename.
      destruct (lf_filename f); simpl; [by eexists | done].
Qed.

(** When every file has a filename, the second comprehension fails on
    the first file without a type. *)
Lemma data_names_outcome (h : Heap) (granules : val)
    (tgs : list tree) (lgs : list (list LooseFile)) :
  repr_in (objs h) granules (TList tgs) →
  mapM view_loose_granule tgs = Some lgs →
  forallb (forallb has_filename) lgs = true →
  if forallb (forallb has_type) lgs
  then ∃ names, (data_file_names_of granules h).1 = Val names
  else (data_file_names_of granules h).1 = Exc (KeyError "type").
Proof.
  intros Hr Hv Hall. destruct (iterate_repr _ _ _ Hr) as (gl & Hit & Hgl).
  unfold data_file_names_of. rewrite bind_unfold, Hit.
  apply (for_each_outcome
           (λ g lg, (∃ t, repr_in (objs h) g t ∧
                          view_loose_granule t = Some lg) ∧
                    forallb has_filename lg = true)).
  - intros g. apply heap_pure_bind; [apply heap_pure_subscript |]. intros fl.
    apply heap_pure_bind; [apply heap_pure_iterate |]. intros fl'.
    apply heap_pure_for_each. intros f.
    apply heap_pure_bind; [apply heap_pure_subscript |]. intros ty.
    destruct (eq_str ty "data"); [|apply heap_pure_ret].
    apply heap_pure_bind; [apply heap_pure_subscript |]. intros name.
    apply heap_pure_ret.
  - apply mapM_Some in Hv. clear -Hgl Hv Hall. revert lgs Hv Hall.
    induction Hgl as [|g t gl tgs Hg _ IH]; intros lgs Hv Hall;
      inversion Hv; subst; constructor; simpl in Hall;
      apply andb_true_iff in Hall as [? ?]; [by split; [exists t |] | by apply IH].
  - intros g lg [(t & Hg & Hvg) Hnames].
    destruct (loose_granule_files _ _ _ _ Hg Hvg) as (vfl & fl & Hs & Hi & Hfl).
    rewrite bind_unfold, Hs. cbn beta iota. rewrite bind_unfold, Hi.
    cbn beta iota.
    apply (for_each_outcome
             (λ file f, (∃ tf, repr_in (objs h) file tf ∧
                               view_loose_file tf = Some f) ∧
                        has_filename f = true)).
    + intros f. apply heap_pure_bind; [apply heap_pure_subscript |].
      intros ty. destruct (eq_str ty "data"); [|apply heap_pure_ret].
      apply heap_pure_bind; [apply heap_pure_subscript |]. intros name.
      apply heap_pure_ret.
    + clear -Hfl Hnames. induction Hfl as [|file f fl lg Hf _ IH];
        constructor; simpl in Hnames;
        apply andb_true_iff in Hnames as [? ?]; [by split | by apply IH].
    + intros file f [(tf & Hf & Hvf) Hname].
      destruct (loose_file_fields _ _ _ _ Hf Hvf) as [Hfn Hty].
      rewrite bind_unfold, Hty. unfold has_type.
      destruct (lf_type f) as [ty|]; simpl; [|done].
      destruct (bool_decide (ty = "data")); [|by eexists].
      rewrite bind_unfold, Hfn. unfold has_filename in Hname.
      destruct (lf_filename f); [by eexists |].
      by apply bool_decide_eq_true_1, is_Some_None in Hname.
Qed.

Section MissingFields.
Context {X : Type} `{!Library X}.
Implicit Types (w : World X).

(** With a payload of granules and files in [self.input], [process]
    reaches the two comprehensions on a store that extends the old one
    and holds the copy of the granules. *)
Lemma process_reading w lgs :
  loose_job_input w lgs →
  ∃ (h1 : Heap) (granules : val),
    heap_ext (heap w) h1 ∧
    (if forallb (forallb has_filename) lgs
     then ∃ names, (original_file_names_of granules h1).1 = Val names
     else (original_file_names_of granules h1).1 = Exc (KeyError "filename")) ∧
    (forallb (forallb has_filename) lgs = true →
     if forallb (forallb has_type) lgs
     then ∃ datas, (data_file_names_of granules h1).1 = Val datas
     else (data_file_names_of granules h1).1 = Exc (KeyError "type")) ∧
    process w =
    match (original_file_names_of granules h1).1 with
    | Exc e => (Exc e, set_heap h1 w)
    | Val names =>
        match (data_file_names_of granules h1).1 with
        | Exc e => (Exc e, set_heap h1 w)
        | Val datas =>
            finish datas names
                   (mkWorld (alloc (OList datas) h1).2 (VRef (next_loc h1))
                            (self_config w) (fs w) (ext w)
                            (recursion_limit w))
        end
    end.
Proof.
  intros (Hwf & t & Hread & Hview).
  destruct w as [h input cfg s x limit]. simpl in *.
  destruct t as [| | | |kts]; try done. simpl in Hview.
  destruct (assoc "granules" kts) as [[| | |tgs|]|] eqn:Hg; try done.
  destruct limit as [|n]; [by destruct input |].
  destruct (subscript_read _ _ _ _ _ _ Hread Hg) as (pg & Hsub & Hpg).
  destruct (deepcopy_correct (objs h) (next_loc h) n (S n) ltac:(lia)
              pg (TList tgs) ∅ h Hpg ltac:(done) Hwf ltac:(done)
              (memo_ok_empty _ _ _ _))
    as (granules & memo & h1 & Hcopy & Hrepr & _ & _ & Hext1).
  assert (repr_in (objs h1) granules (TList tgs)) as Hrepr1.
  { eapply repr_in_mono; [done | apply map_filter_subseteq]. }
  exists h1, granules. split; [done |].
  split; [by eapply original_names_outcome |].
  split; [intros Hall; by eapply data_names_outcome |].
  unfold process. rewrite bind_unfold. simpl. rewrite bind_unfold. simpl.
  rewrite bind_unfold, (on_heap_val _ _ pg h) by done. simpl.
  rewrite bind_unfold, (on_heap_val _ _ (granules, memo) h1) by done. simpl.
  rewrite bind_unfold.
  rewrite (on_heap_pure (original_file_names_of granules))
    by apply heap_pure_original_names.
  simpl heap.
  destruct (original_file_names_of granules h1).1 as [names|e]; [|done].
  cbn beta iota. rewrite bind_unfold.
  rewrite (on_heap_pure (data_file_names_of granules))
    by apply heap_pure_data_names.
  simpl heap.
  destruct (data_file_names_of granules h1).1 as [datas|e]; [|done].
  cbn beta iota. rewrite bind_unfold.
  rewrite (on_heap_val _ _ (next_loc h1) (alloc (OList datas) h1).2) by done.
  cbn beta iota. rewrite bind_unfold.
  unfold set_input, modify. cbn beta iota. simpl.
  unfold finish. rewrite !bind_unfold.
  erewrite fetch_list; [reflexivity | reflexivity | apply lookup_insert_eq].
Qed.

(** X3. A payload of granules and files in which some file has no
    ['filename'] makes [process] raise [KeyError('filename')]; when
    every file has a filename and some file has no ['type'], it raises
    [KeyError('type')].  Either way the exception comes out of the list
    comprehensions: [self.input] is still the payload, and neither the
    file system nor the library's store has been touched. *)
Theorem missing_file_field_is_a_key_error w lgs :
  loose_job_input w lgs →
  (forallb (forallb has_filename) lgs = false →
   ∃ w', process w = (Exc (KeyError "filename"), w') ∧
         self_input w' = self_input w ∧ fs w' = fs w ∧ ext w' = ext w) ∧
  (forallb (forallb has_filename) lgs = true →
   forallb (forallb has_type) lgs = false →
   ∃ w', process w = (Exc (KeyError "type"), w') ∧
         self_input w' = self_input w ∧ fs w' = fs w ∧ ext w' = ext w).
Proof.
  intros Hjob.
  destruct (process_reading w lgs Hjob)
    as (h1 & granules & _ & Hnames & Hdatas & Hrun).
  split.
  - intros Hnone. rewrite Hnone in Hnames. rewrite Hnames in Hrun.
    exists (set_heap h1 w). by destruct w.
  - intros Hall Hnone. rewrite Hall in Hnames.
    destruct Hnames as [names Hnames]. rewrite Hnames in Hrun.
    specialize (Hdatas Hall). rewrite Hnone in Hdatas.
    rewrite Hdatas in Hrun.
    exists (set_heap h1 w). by destruct w.
Qed.
End MissingFields.



Section LocalFiles.
Context {X : Type} `{!Library X}.
Implicit Types (w : World X) (p q : string).


End LocalFiles.

(** ** The last component of a path and of a key *)
Lemma rfind1_without (s : string) : rfind1 s = 0 ↔ without sep s = true.
Proof.
  induction s as [|c s IH]; simpl; [done |].
  destruct (rfind1 s) as [|i].
  - case_bool_decide; simpl; [split; [lia | done] |].
    split; [intros _; by apply IH | done].
  - split; [lia |]. intros [_ Hs]%andb_true_iff. by apply IH in Hs.
Qed.

Lemma rfind1_tail (p : string) : rfind1 (str_drop (rfind1 p) p) = 0.
Proof.
  induction p as [|c p IH]; simpl; [done |].
  destruct (rfind1 p) as [|i] eqn:Hp; [|done].
  case_bool_decide; simpl; [done |]. rewrite Hp.
  by rewrite bool_decide_eq_false_2.
Qed.

Lemma rfind1_app_sep (a b : string) (i : nat) :
  rfind1 b = S i → rfind1 (a +:+ b) = String.length a + S i.
Proof.
  intros Hb. induction a as [|c a IH]; [done |].
  change (rfind1 (String c (a +:+ b)) = S (String.length a) + S i).
  simpl. rewrite IH. by replace (String.length a + S i)
                         with (S (String.length a + i)) by lia.
Qed.

Lemma str_drop_length_app (a b : string) (n : nat) :
  str_drop (String.length a + n) (a +:+ b) = str_drop n b.
Proof. induction a as [|c a IH]; [done | apply IH]. Qed.

(** What comes before the last separator does not matter. *)
Lemma split_tail_app (a b : string) :
  rfind1 b ≠ 0 → (os_path_split (a +:+ b)).2 = (os_path_split b).2.
Proof.
  intros Hb. destruct (rfind1 b) as [|i] eqn:Hi; [done |].
  unfold os_path_split. simpl.
  rewrite (rfind1_app_sep a b i Hi), Hi. apply str_drop_length_app.
Qed.

Lemma split_sep_tail (a t : string) :
  rfind1 t = 0 → (os_path_split (a +:+ "/" +:+ t)).2 = t.
Proof.
  intros Ht.
  assert (rfind1 ("/" +:+ t) = 1) as H1.
  { change (rfind1 (String sep t) = 1). simpl. by rewrite Ht. }
  rewrite split_tail_app by (rewrite H1; lia).
  unfold os_path_split. cbn [snd]. by rewrite H1.
Qed.

Lemma str_take_drop (n : nat) (s : string) : str_take n s +:+ str_drop n s = s.
Proof.
  revert s. induction n as [|n IH]; intros [|c s]; try done.
  change (String c (str_take n s +:+ str_drop n s) = String c s).
  by rewrite IH.
Qed.


Lemma remote_key_tail (bucket stack name version t : string) :
  rfind1 t = 0 →
  (os_path_split (remote_key bucket stack name version t)).2 = t +:+ ".md5".
Proof.
  intros Ht. unfold remote_key.
  assert (∀ a b c : string, a +:+ b +:+ c = (a +:+ b) +:+ c) as Hassoc
    by (intros; by rewrite append_assoc).
  repeat rewrite (Hassoc _ _ ("/" +:+ t +:+ ".md5")).
  apply split_sep_tail. by rewrite rfind1_app.
Qed.

Lemma str_take_sep (p : string) (i : nat) :
  rfind1 p = S i → str_take (S i) p = str_take i p +:+ "/".
Proof.
  revert i. induction p as [|c p IH]; intros i; simpl; [done |].
  destruct (rfind1 p) as [|j] eqn:Hp.
  - case_bool_decide as Hc; [|done]. intros [= <-]. by rewrite Hc.
  - intros [= <-]. rewrite (IH j eq_refl).
    by destruct p.
Qed.

Lemma sidecar_key_tail (cfg : Config) (p k : string) :
  sidecar_key cfg p = Some k →
  (os_path_split k).2 = (os_path_split p).2 +:+ ".md5".
Proof.
  unfold sidecar_key.
  destruct (config_values cfg) as [[[[bucket stack] name] version]|];
    [|done].
  simpl. intros [= <-]. apply remote_key_tail.
  unfold os_path_split. simpl. apply rfind1_tail.
Qed.


Section Keys.
Context {X : Type} `{!Library X}.
Implicit Types (w : World X) (p : string).

(** X5. The last component of the key [add_ancillary_file] returns is
    the file name of the sidecar, [os.path.split(md5_file)[1]]: the key
    names the sidecar under the staging prefix, without its directories.
    That name is what follows the last ['/'] of the path: it contains no
    ['/'], what precedes it in the path is empty or ends with ['/'], and a
    path without ['/'] is its own name. *)
Theorem key_ends_with_the_sidecar_name :
  (∀ w p k w',
      add_ancillary_file p w = (Val k, w') →
      (os_path_split k).2 = (os_path_split (p +:+ ".md5")).2 ∧
      without sep (os_path_split k).2 = true) ∧
  (∀ p, without sep (os_path_split p).2 = true ∧
        ∃ d, p = d +:+ (os_path_split p).2 ∧
             (d = "" ∨ ∃ d', d = d' +:+ "/")) ∧
  (∀ p, without sep p = true → os_path_split p = ("", p)).
Proof.
  split; [|split].
  - intros w p k w' [(data & _ & _ & Hk & _) _]%add_ancillary_file_val.
    apply sidecar_key_tail in Hk. rewrite split_md5. split; [done |].
    rewrite Hk. apply rfind1_without. rewrite rfind1_app by reflexivity.
    unfold os_path_split. simpl. apply rfind1_tail.
  - intros p. split.
    + apply rfind1_without. unfold os_path_split. simpl. apply rfind1_tail.
    + exists (str_take (rfind1 p) p). unfold os_path_split. cbn [snd].
      split; [by rewrite str_take_drop |].
      destruct (rfind1 p) as [|i] eqn:Hp; [left; by destruct p |].
      right. exists (str_take i p). by apply str_take_sep.
  - intros p Hp%rfind1_without. unfold os_path_split. rewrite Hp.
    by destruct p.
Qed.

End Keys.

Section Payloads.
Context {X : Type} `{!Library X}.
Implicit Types (w : World X).

Lemma finish_same_effects (datas names : list val) w1 w2 :
  self_config w1 = self_config w2 → fs w1 = fs w2 → ext w1 = ext w2 →
  (finish datas names w1).1 = (finish datas names w2).1 ∧
  fs (finish datas names w1).2 = fs (finish datas names w2).2 ∧
  ext (finish datas names w1).2 = ext (finish datas names w2).2.
Proof.
  intros Hc Hs Hx.
  destruct (finish datas names w1) as [[out|e] w1'] eqn:H1.
  - apply finish_val in H1
      as (locals & sx1 & keys & sx2 & Hf & Hrun & Hcl & -> & _).
    assert (finish datas names w2
            = (Val (map VStr keys ++ names), set_lib (fs w1', ext w1') w2))
      as ->; [|done].
    apply finish_val. exists locals, sx1, keys, sx2.
    rewrite <- Hc, <- Hs, <- Hx. simpl.
    split; [done |]. split; [done |]. split; [done |]. split; [done |].
    by repeat split.
  - apply finish_exc in H1 as [Hfail _].
    assert (finish datas names w2 = (Exc e, set_lib (fs w1', ext w1') w2))
      as ->; [|done].
    apply finish_exc. rewrite <- Hc, <- Hs, <- Hx. simpl.
    split; [done | by repeat split].
Qed.

(** X7. [process] sees of the payload only the [filename] and the
    [type] of the files of its granules. Two handlers whose payloads
    hold the same granules' files, whatever other keys, key order or
    sharing of objects they have, and that start from the same
    configuration, file system and library state, end the same way: they
    return the same list or raise the same exception, and leave the same
    file system and library state. *)
Theorem outcome_depends_on_names_and_types w1 w2 gs :
  job_input w1 gs → job_input w2 gs →
  self_config w1 = self_config w2 → fs w1 = fs w2 → ext w1 = ext w2 →
  (process w1).1 = (process w2).1 ∧
  fs (process w1).2 = fs (process w2).2 ∧
  ext (process w1).2 = ext (process w2).2.
Proof.
  intros Hj1 Hj2 Hc Hs Hx.
  destruct (process_prelude w1 gs Hj1) as (h1 & l1 & _ & _ & _ & ->).
  destruct (process_prelude w2 gs Hj2) as (h2 & l2 & _ & _ & _ & ->).
  by apply finish_same_effects.
Qed.
End Payloads.

(** * The further properties on the example jobs *)
Lemma no_filename_loose_input :
  loose_job_input Malformed.no_filename Malformed.no_filename_files.
Proof.
  split; [unfold heap_wf; by_compute |].
  eexists. split; [vm_compute; reflexivity | vm_compute; reflexivity].
Defined.

Lemma no_type_loose_input :
  loose_job_input Malformed.no_type Malformed.no_type_files.
Proof.
  split; [unfold heap_wf; by_compute |].
  eexists. split; [vm_compute; reflexivity | vm_compute; reflexivity].
Defined.

Lemma variant_job_input : job_input Variant.world Example.granules.
Proof.
  split; [unfold heap_wf; by_compute |].
  eexists. split; [vm_compute; reflexivity | vm_compute; reflexivity].
Defined.



Lemma library_runs_only_after_narrowing_witness :
  (∃ e, Val [VStr "s3://mybucket/staging/dev/MOD09__006/modis.hdf.md5";
             VStr "s3://in/modis.hdf"; VStr "s3://in/modis.cmr.xml"] = Exc e ∧
        self_input (process Example.world).2 = self_input Example.world ∧
        fs (process Example.world).2 = fs Example.world ∧
        ext (process Example.world).2 = ext Example.world ∧
        self_config (process Example.world).2 = self_config Example.world) ∨
  (∃ l items,
      self_input (process Example.world).2 = VRef l ∧
      objs (heap Example.world) !! l = None ∧
      objs (heap (process Example.world).2) !! l = Some (OList items) ∧
      self_config (process Example.world).2 = self_config Example.world).
Proof.
  apply (library_runs_only_after_narrowing Example.world _ _).
  - unfold heap_wf. by_compute.
  - exact example_run.
Defined.

Lemma malformed_payload_is_rejected_witness :
  process Malformed.no_granules
  = (Exc (KeyError "granules"), Malformed.no_granules).
Proof.
  apply (proj1 (proj2 (malformed_payload_is_rejected Malformed.no_granules))
               0 [("meta", VStr "x")]).
  - reflexivity.
  - vm_compute. reflexivity.
  - reflexivity.
Defined.

Lemma missing_file_field_is_a_key_error_witness :
  (∃ w', process Malformed.no_filename = (Exc (KeyError "filename"), w') ∧
         self_input w' = self_input Malformed.no_filename ∧
         fs w' = fs Malformed.no_filename ∧
         ext w' = ext Malformed.no_filename) ∧
  (∃ w', process Malformed.no_type = (Exc (KeyError "type"), w') ∧
         self_input w' = self_input Malformed.no_type ∧
         fs w' = fs Malformed.no_type ∧
         ext w' = ext Malformed.no_type).
Proof.
  split.
  - apply (proj1 (missing_file_field_is_a_key_error
                    Malformed.no_filename Malformed.no_filename_files
                    no_filename_loose_input)).
    reflexivity.
  - apply (proj2 (missing_file_field_is_a_key_error
                    Malformed.no_type Malformed.no_type_files
                    no_type_loose_input)).
    + reflexivity.
    + reflexivity.
Defined.


Lemma key_ends_with_the_sidecar_name_witness :
  (os_path_split "s3://mybucket/staging/dev/MOD09__006/modis.hdf.md5").2
  = (os_path_split ("modis.hdf" +:+ ".md5")).2 ∧
  without sep
    (os_path_split "s3://mybucket/staging/dev/MOD09__006/modis.hdf.md5").2
  = true.
Proof.
  exact (proj1 key_ends_with_the_sidecar_name
               Example.local_world "modis.hdf" _ _ example_sidecar).
Defined.


Lemma outcome_depends_on_names_and_types_witness :
  (process Example.world).1 = (process Variant.world).1 ∧
  fs (process Example.world).2 = fs (process Variant.world).2 ∧
  ext (process Example.world).2 = ext (process Variant.world).2.
Proof.
  apply (outcome_depends_on_names_and_types
           Example.world Variant.world Example.granules).
  - exact example_job_input.
  - exact variant_job_input.
  - reflexivity.
  - reflexivity.
  - reflexivity.
Defined.

